(** * The [transcribe] command of the MLHub [openai] package

    A shallow embedding of [src/transcribe.py] and the properties of its
    command function [cli]: the pre-flight checks, the choice between the
    output handler and the console, and the grouping of segments into
    sentences on the console.

    Python values are modelled as follows.
    - A [str] is the list of its Unicode code points, so that [s[-1]] is
      the last code point and the full-width marks are single characters.
    - An optional command-line value ([None] or a string) is an
      [option str]; its truth value is the one Python gives it.
    - The interpreter state the command touches (standard output, the file
      system, the variables [result] and [text_buffer], and the log of
      calls to collaborators) is a record threaded through a state and
      exception monad.
    - A float is a binary64 float ([PrimFloat.float]). *)

From Stdlib Require Import ZArith NArith List String Ascii Bool Lia.
From Stdlib Require Import PrimFloat SpecFloat FloatOps DecimalString.
Import ListNotations.

(** ** Python strings *)

Module Py.

Definition char := N.
Definition str := list char.

(** The code points of an ASCII literal. *)
Definition u (s : string) : str := map N_of_ascii (list_ascii_of_string s).
Arguments u s%_string.

Definition chr_eqb (a b : char) : bool := N.eqb a b.

Fixpoint str_eqb (a b : str) : bool :=
  match a, b with
  | [], [] => true
  | x :: a', y :: b' => chr_eqb x y && str_eqb a' b'
  | _, _ => false
  end.

(** [x in l] for a list of strings. *)
Definition str_in (x : str) (l : list str) : bool := existsb (str_eqb x) l.

(** [str.isspace] on one character: the code points CPython lists in
    [_PyUnicode_IsWhitespace]. *)
Definition isspace (c : char) : bool :=
  (((9 <=? c) && (c <=? 13)) || ((28 <=? c) && (c <=? 32))
   || (c =? 133) || (c =? 160) || (c =? 5760)
   || ((8192 <=? c) && (c <=? 8202))
   || (c =? 8232) || (c =? 8233) || (c =? 8239) || (c =? 8287)
   || (c =? 12288))%N.

Fixpoint lstrip (s : str) : str :=
  match s with
  | [] => []
  | c :: r => if isspace c then lstrip r else s
  end.

Definition rstrip (s : str) : str := rev (lstrip (rev s)).

(** [s.strip()] *)
Definition strip (s : str) : str := rstrip (lstrip s).

(** [s[-1]]: the one-character string at the last position, [None] where
    Python raises [IndexError]. *)
Fixpoint getitem_last (s : str) : option str :=
  match s with
  | [] => None
  | [c] => Some [c]
  | _ :: r => getitem_last r
  end.

(** [l[-1]] on a list. *)
Fixpoint list_last {A} (l : list A) : option A :=
  match l with
  | [] => None
  | [x] => Some x
  | _ :: r => list_last r
  end.

(** [s.split(sep)] for a one-character separator. *)
Fixpoint split (sep : char) (s : str) : list str :=
  match s with
  | [] => [[]]
  | c :: r =>
      if chr_eqb c sep then [] :: split sep r
      else match split sep r with
           | p :: ps => (c :: p) :: ps
           | [] => [[c]]
           end
  end.

(** [sep.join(l)] *)
Fixpoint join (sep : str) (l : list str) : str :=
  match l with
  | [] => []
  | [x] => x
  | x :: r => x ++ sep ++ join sep r
  end.

(** Truth value of an optional string: [None] and the empty string are
    false. *)
Definition truthy (o : option str) : bool :=
  match o with
  | None | Some [] => false
  | Some _ => true
  end.

Definition startswith (c : char) (s : str) : bool :=
  match s with
  | x :: _ => chr_eqb x c
  | [] => false
  end.

Definition endswith (c : char) (s : str) : bool :=
  match list_last s with
  | Some x => chr_eqb x c
  | None => false
  end.

Definition slash : char := 47%N.
Definition dot : char := 46%N.
Definition newline : char := 10%N.

(** [os.path.join(a, b)] of [posixpath]. *)
Definition os_path_join (a b : str) : str :=
  if startswith slash b then b
  else if match a with [] => true | _ => endswith slash a end then a ++ b
  else a ++ [slash] ++ b.

(** The characters [shlex.quote] leaves alone: [[\w@%+=:,./-]] with ASCII
    word characters. *)
Definition shlex_safe (c : char) : bool :=
  (((48 <=? c) && (c <=? 57)) || ((65 <=? c) && (c <=? 90))
   || ((97 <=? c) && (c <=? 122)) || (c =? 95)
   || (c =? 64) || (c =? 37) || (c =? 43) || (c =? 61) || (c =? 58)
   || (c =? 44) || (c =? 46) || (c =? 47) || (c =? 45))%N.

Definition apostrophe : char := 39%N.
Definition quotation : char := 34%N.

(** [shlex.quote(s)] *)
Definition quote (s : str) : str :=
  match s with
  | [] => [apostrophe; apostrophe]
  | _ =>
      if forallb shlex_safe s then s
      else [apostrophe]
           ++ flat_map (fun c =>
                if chr_eqb c apostrophe
                then [apostrophe; quotation; apostrophe; quotation; apostrophe]
                else [c]) s
           ++ [apostrophe]
  end.

End Py.

Import Py.

(** ** The data the command handles *)

(** One decoded span of audio, a dictionary with these keys. *)
Record Segment := {
  id : option Z;
  start : float;
  end_ : float;
  text : str
}.

(** What [model.transcribe] returns. *)
Record TranscriptionResult := {
  segments : list Segment;
  language : option str
}.

(** ** The interpreter state *)

Inductive fs_entry :=
| File (content : str)
| Directory.

(** Calls the command makes to its collaborators, oldest first. *)
Inductive call :=
| Call_load_model (name : str)
| Call_get_cmd_cwd
| Call_exists (path : str)
| Call_transcribe (path : str) (fp16 : bool) (lang : option str)
| Call_OutputHandler (format : str) (path : option str).

Record Store := {
  fs : list (str * fs_entry);
  stdout : list str;
  calls : list call;
  result : option TranscriptionResult;
  text_buffer : list str
}.

Inductive exn :=
| SystemExit (msg : str)
| IndexError
| TypeError
| NameError
| AttributeError
| ValueError
| IOError (path : str)
| UnsupportedFormatError (format : str).

Inductive outcome (A : Type) :=
| Return (a : A)
| Raise (e : exn).
Arguments Return {A} a.
Arguments Raise {A} e.

(** A command: from a state to an outcome and the state it leaves. *)
Definition M (A : Type) := Store -> outcome A * Store.

Definition ret {A} (a : A) : M A := fun s => (Return a, s).

Definition raise {A} (e : exn) : M A := fun s => (Raise e, s).

Definition bind {A B} (c : M A) (k : A -> M B) : M B :=
  fun s =>
    match c s with
    | (Return a, s') => k a s'
    | (Raise e, s') => (Raise e, s')
    end.

Notation "x <- c ;; k" := (bind c (fun x => k))
  (at level 61, c at next level, right associativity).
Notation "c ;; k" := (bind c (fun _ => k))
  (at level 61, right associativity).

Definition gets {A} (f : Store -> A) : M A := fun s => (Return (f s), s).

Definition modify (f : Store -> Store) : M unit := fun s => (Return tt, f s).

(** [for x in l: body] *)
Fixpoint for_each {A} (l : list A) (body : A -> M unit) : M unit :=
  match l with
  | [] => ret tt
  | x :: r => body x ;; for_each r body
  end.

Definition log (c : call) : M unit :=
  modify (fun s => {| fs := fs s; stdout := stdout s; calls := calls s ++ [c];
                      result := result s; text_buffer := text_buffer s |}).

(** [print(line)] *)
Definition print (line : str) : M unit :=
  modify (fun s => {| fs := fs s; stdout := stdout s ++ [line]; calls := calls s;
                      result := result s; text_buffer := text_buffer s |}).

(** [sys.exit(msg)] *)
Definition sys_exit {A} (msg : str) : M A := raise (SystemExit msg).

Definition set_result (r : TranscriptionResult) : M unit :=
  modify (fun s => {| fs := fs s; stdout := stdout s; calls := calls s;
                      result := Some r; text_buffer := text_buffer s |}).

(** [text_buffer = l] *)
Definition set_text_buffer (l : list str) : M unit :=
  modify (fun s => {| fs := fs s; stdout := stdout s; calls := calls s;
                      result := result s; text_buffer := l |}).

(** [text_buffer.append(x)] *)
Definition text_buffer_append (x : str) : M unit :=
  modify (fun s => {| fs := fs s; stdout := stdout s; calls := calls s;
                      result := result s; text_buffer := text_buffer s ++ [x] |}).

Fixpoint fs_lookup (l : list (str * fs_entry)) (p : str) : option fs_entry :=
  match l with
  | [] => None
  | (q, e) :: r => if str_eqb q p then Some e else fs_lookup r p
  end.

(** [os.path.exists(path)] *)
Definition os_path_exists (path : str) : M bool :=
  log (Call_exists path) ;;
  gets (fun s => match fs_lookup (fs s) path with Some _ => true | None => false end).

(** The string held by an option that is used as a string. *)
Definition as_str (o : option str) : M str :=
  match o with
  | Some s => ret s
  | None => raise TypeError
  end.

(** [result["segments"]] *)
Definition result_segments : M (list Segment) :=
  r <- gets result ;;
  match r with
  | Some r => ret (segments r)
  | None => raise NameError
  end.

(** The sentence-ending marks: full stop, question mark and exclamation
    mark, and their full-width forms U+3002, U+FF1F and U+FF01. *)
Definition terminators : list str :=
  [u "."; u "?"; u "!"; [12290%N]; [65311%N]; [65281%N]].

(** The status the process ends with: [sys.exit] with a string prints the
    string to standard error and exits with 1, as does an exception that
    nothing catches. *)
Definition exit_status {A} (o : outcome A) : Z :=
  match o with
  | Return _ => 0
  | Raise _ => 1
  end.

Section Command.

(** The directory [mlhub.pkg.get_cmd_cwd] returns. *)
Variable cmd_cwd : str.

(** The decoder: [model.transcribe(path, fp16=..., language=...)] of the
    loaded model. *)
Variable whisper_transcribe : str -> bool -> option str -> TranscriptionResult.

(** The output handler of module [output_handler]:
    [OutputHandler(format, path).write(result)], acting on the state in
    which [result] lives. *)
Variable OutputHandler_write : str -> option str -> M unit.

Definition load_model (name : str) : M unit := log (Call_load_model name).

Definition get_cmd_cwd : M str := log Call_get_cmd_cwd ;; ret cmd_cwd.

Definition model_transcribe (path : str) (fp16 : bool) (lang : option str)
  : M TranscriptionResult :=
  log (Call_transcribe path fp16 lang) ;;
  ret (whisper_transcribe path fp16 lang).

Definition OutputHandler (format : str) (path : option str) : M unit :=
  log (Call_OutputHandler format path) ;;
  OutputHandler_write format path.

(** Lines 111-117: the body of the loop over the segments. *)
Definition console_body (segment : Segment) : M unit :=
  text_buffer_append (strip (text segment)) ;;
  last_char <- match getitem_last (strip (text segment)) with
               | Some c => ret c
               | None => raise IndexError
               end ;;
  if str_in last_char terminators then
    buf <- gets text_buffer ;;
    let full_sentence := join (u " ") buf in
    print full_sentence ;;
    set_text_buffer []
  else ret tt.

(** Lines 106-122: one sentence per line on the console. *)
Definition console : M unit :=
  set_text_buffer [] ;;
  segs <- result_segments ;;
  for_each segs console_body ;;
  buf <- gets text_buffer ;;
  match buf with
  | [] => ret tt
  | _ =>
      let trailing_text := join (u " ") buf in
      print trailing_text
  end.

(** [output.split(".")[-1]] *)
Definition extension (output : str) : M str :=
  match list_last (split dot output) with
  | Some e => ret e
  | None => raise IndexError
  end.

(** The command function. *)
Definition cli (filename lang format output : option str) : M unit :=
  let pkg := u "openai" in
  let cmd := u "transcribe" in
  load_model (u "small") ;;
  (if negb (truthy filename)
   then sys_exit (pkg ++ u " " ++ cmd ++ u ": A filename is required.")
   else ret tt) ;;
  cwd <- get_cmd_cwd ;;
  fname <- as_str filename ;;
  let path := os_path_join cwd fname in
  found <- os_path_exists path ;;
  (if negb found
   then sys_exit (pkg ++ u " " ++ cmd ++ u ": File not found: " ++ path)
   else ret tt) ;;
  output_path <-
    (if truthy output then
       cwd <- get_cmd_cwd ;;
       o <- as_str output ;;
       let output_path := os_path_join cwd o in
       taken <- os_path_exists output_path ;;
       if taken
       then sys_exit (pkg ++ u " " ++ cmd ++ u ": Output file already exists: " ++ o)
       else ret (Some output_path)
     else ret None) ;;
  let input_path := quote path in
  r <- model_transcribe input_path false lang ;;
  set_result r ;;
  if truthy format || truthy output then
    output_format <-
      (if truthy format then as_str format
       else match output with
            | Some o => extension o
            | None => raise AttributeError
            end) ;;
    dest <-
      (if truthy output then
         match output_path with
         | Some p => ret (Some p)
         | None => raise NameError
         end
       else ret None) ;;
    OutputHandler output_format dest
  else console.

End Command.

(** ** The output handler *)

(** Module [output_handler] of the repository is not among the sources at
    hand; what follows is its renderer as the specification describes it
    (sections 3, 4.1 and 7). *)
Module output_handler.

(** Modelled from the spec: the five recognized kinds of [format], of the
    missing [output_handler.OutputHandler]. *)
Inductive FormatKind := txt | json | srt | tsv | vtt.

(** Modelled from the spec: recognition of a format string, of the missing
    [output_handler.OutputHandler]; a string that is none of the five has
    no kind. *)
Definition format_kind (s : str) : option FormatKind :=
  if str_eqb s (u "txt") then Some txt
  else if str_eqb s (u "json") then Some json
  else if str_eqb s (u "srt") then Some srt
  else if str_eqb s (u "tsv") then Some tsv
  else if str_eqb s (u "vtt") then Some vtt
  else None.

(** Nearest integer to [m / 2^k], ties to the even one. *)
Definition round_div_pow2 (m : Z) (k : Z) : Z :=
  let d := (2 ^ k)%Z in
  let q := (m / d)%Z in
  let r := (m mod d)%Z in
  if (2 * r <? d)%Z then q
  else if (d <? 2 * r)%Z then (q + 1)%Z
  else if Z.even q then q else (q + 1)%Z.

(** [round(x)] of a float: [None] for an infinity or a NaN. *)
Definition round_float (x : float) : option Z :=
  match Prim2SF x with
  | S754_zero _ => Some 0%Z
  | S754_finite sign m e =>
      let n := if (0 <=? e)%Z then (Zpos m * 2 ^ e)%Z
               else round_div_pow2 (Zpos m) (- e) in
      Some (if sign then (- n)%Z else n)
  | S754_infinity _ | S754_nan => None
  end.

(** Modelled from the spec: [t * 1000] rounded to the nearest millisecond,
    of the missing timestamp conversion. *)
Definition milliseconds (t : float) : option Z :=
  round_float (PrimFloat.mul t 1000%float).

(** [n] in decimal. *)
Definition digits (n : Z) : str := u (NilZero.string_of_int (Z.to_int n)).

(** [n] in decimal, filled with zeros after the sign to [width] characters,
    as the format [0{width}d] does. *)
Definition zero_pad (width : nat) (n : Z) : str :=
  if (n <? 0)%Z then
    let d := digits (- n) in
    u "-" ++ repeat 48%N (width - 1 - List.length d) ++ d
  else
    let d := digits n in
    repeat 48%N (width - List.length d) ++ d.

(** Modelled from the spec: the timestamp conversion of the missing
    renderer, with [sep] between the seconds and the milliseconds. *)
Definition format_timestamp (t : float) (sep : str) : option str :=
  match milliseconds t with
  | None => None
  | Some ms =>
      let hours := (ms / 3600000)%Z in
      let ms := (ms mod 3600000)%Z in
      let minutes := (ms / 60000)%Z in
      let ms := (ms mod 60000)%Z in
      let seconds := (ms / 1000)%Z in
      let ms := (ms mod 1000)%Z in
      Some (zero_pad 2 hours ++ u ":" ++ zero_pad 2 minutes ++ u ":"
            ++ zero_pad 2 seconds ++ sep ++ zero_pad 3 ms)
  end.

(** Modelled from the spec: the time stamp of the missing SubRip writer,
    with the comma as decimal separator. *)
Definition srt_timestamp (t : float) : option str := format_timestamp t (u ",").

(** Modelled from the spec: the time stamp of the missing WebVTT writer,
    with the period as decimal separator. *)
Definition vtt_timestamp (t : float) : option str := format_timestamp t (u ".").

(** The line [from --> to] of a subtitle block. *)
Definition timing_line (stamp : float -> option str) (seg : Segment) : option str :=
  match stamp (start seg), stamp (end_ seg) with
  | Some a, Some b => Some (a ++ u " --> " ++ b)
  | _, _ => None
  end.

Fixpoint concat_opt (l : list (option str)) : option str :=
  match l with
  | [] => Some []
  | Some x :: r =>
      match concat_opt r with
      | Some y => Some (x ++ y)
      | None => None
      end
  | None :: _ => None
  end.

Definition line (s : str) : str := s ++ [newline].

Definition tab : char := 9%N.

(** Modelled from the spec: one SubRip block of the missing renderer:
    index, timing line, text, blank line. *)
Definition srt_block (index : Z) (seg : Segment) : option str :=
  match timing_line srt_timestamp seg with
  | Some t => Some (line (digits index) ++ line t ++ line (text seg) ++ line [])
  | None => None
  end.

Fixpoint srt_blocks (index : Z) (l : list Segment) : list (option str) :=
  match l with
  | [] => []
  | seg :: r => srt_block index seg :: srt_blocks (index + 1) r
  end.

(** Modelled from the spec: one WebVTT block of the missing renderer:
    timing line, text, blank line. *)
Definition vtt_block (seg : Segment) : option str :=
  match timing_line vtt_timestamp seg with
  | Some t => Some (line t ++ line (text seg) ++ line [])
  | None => None
  end.

(** Modelled from the spec: one data row of the tab-separated table of the
    missing renderer, the times in whole milliseconds. *)
Definition tsv_row (seg : Segment) : option str :=
  match milliseconds (start seg), milliseconds (end_ seg) with
  | Some a, Some b =>
      Some (line (digits a ++ [tab] ++ digits b ++ [tab] ++ text seg))
  | _, _ => None
  end.

Section Renderer.

(** The JSON serializer of the standard library. *)
Variable json_dumps : TranscriptionResult -> str.

(** Whether the operating system lets the process create and fill the
    file. *)
Variable writable : str -> bool.

(** Modelled from the spec: the table of format behaviours of the missing
    renderer (section 4.1); [None] when a time stamp has no nearest
    millisecond. *)
Definition render (k : FormatKind) (r : TranscriptionResult) : option str :=
  match k with
  | txt => Some (List.concat (map (fun seg => strip (text seg)) (segments r)))
  | json => Some (json_dumps r)
  | srt => concat_opt (srt_blocks 1 (segments r))
  | vtt =>
      match concat_opt (map vtt_block (segments r)) with
      | Some body => Some (line (u "WEBVTT") ++ line [] ++ body)
      | None => None
      end
  | tsv =>
      match concat_opt (map tsv_row (segments r)) with
      | Some body => Some (line (u "start" ++ [tab] ++ u "end" ++ [tab] ++ u "text") ++ body)
      | None => None
      end
  end.

(** Creating the file at [path] with [content]. *)
Definition create_file (path content : str) : M unit :=
  if writable path then
    modify (fun s => {| fs := (path, File content) :: fs s; stdout := stdout s;
                        calls := calls s; result := result s;
                        text_buffer := text_buffer s |})
  else raise (IOError path).

(** Modelled from the spec: [OutputHandler(format, path).write(result)] of
    the missing [output_handler] module. A format that is none of the five
    kinds fails with [UnsupportedFormatError]; otherwise the result is read,
    serialized, and shown on the console or written to the one file at
    [path]. *)
Definition write (format : str) (path : option str) : M unit :=
  match format_kind format with
  | None => raise (UnsupportedFormatError format)
  | Some k =>
      r <- gets result ;;
      match r with
      | None => raise NameError
      | Some r =>
          match render k r with
          | None => raise ValueError
          | Some content =>
              match path with
              | None => print content
              | Some p => create_file p content
              end
          end
      end
  end.

End Renderer.

End output_handler.

(** ** Runs of the command *)

(** The state a run starts in: the given files, nothing printed, no call
    made, no variable assigned. *)
Definition initial (files : list (str * fs_entry)) : Store :=
  {| fs := files; stdout := []; calls := []; result := None; text_buffer := [] |}.

(** A segment with the text [t], and a result with the texts [l]. *)
Definition seg (t : str) : Segment :=
  {| id := None; start := 0%float; end_ := 0%float; text := t |}.

Definition tr (l : list str) : TranscriptionResult :=
  {| segments := map seg l; language := None |}.

(** ** Auxiliary definitions *)

(** [output.split(".")[-1]] as a function: the index never fails. *)
Definition last_piece (output : str) : str :=
  match list_last (split dot output) with
  | Some e => e
  | None => []
  end.

(** Whether a path names an entry of the file system. *)
Definition path_exists (files : list (str * fs_entry)) (p : str) : bool :=
  match fs_lookup files p with
  | Some _ => true
  | None => false
  end.

(** The state of a run that stops before the transcription. *)
Definition stopped (files : list (str * fs_entry)) (cs : list call) : Store :=
  {| fs := files; stdout := []; calls := cs; result := None; text_buffer := [] |}.

(** The state of a run when the transcription [r] has been stored. *)
Definition transcribed (files : list (str * fs_entry)) (cs : list call)
  (r : TranscriptionResult) : Store :=
  {| fs := files; stdout := []; calls := cs; result := Some r; text_buffer := [] |}.

(** The code points of the sentence-ending marks. *)
Definition terminator_chars : list char :=
  [46; 63; 33; 12290; 65311; 65281]%N.

(** Whether a trimmed text ends with a sentence-ending mark. *)
Definition ends_sentence (t : str) : bool :=
  match list_last t with
  | Some c => existsb (chr_eqb c) terminator_chars
  | None => false
  end.

(** The lines of the console as the specification words them: each text
    is trimmed and appended to the buffer; when the trimmed text ends with
    a sentence-ending mark the buffer, joined by single spaces, is one
    line and the buffer starts again; what remains after the last text is
    a final line. *)
Fixpoint group_sentences (buffer : list str) (texts : list str) : list str :=
  match texts with
  | [] =>
      match buffer with
      | [] => []
      | _ => [join (u " ") buffer]
      end
  | t :: rest =>
      let buffer' := buffer ++ [strip t] in
      if ends_sentence (strip t)
      then join (u " ") buffer' :: group_sentences [] rest
      else group_sentences buffer' rest
  end.

(** What the loop leaves behind: the lines printed, the buffer, and
    whether it ran to the end ([false]: it stopped at a segment whose
    trimmed text is empty). *)
Fixpoint scan (buffer : list str) (segs : list Segment)
  : list str * list str * bool :=
  match segs with
  | [] => ([], buffer, true)
  | sg :: rest =>
      let buffer' := buffer ++ [strip (text sg)] in
      match getitem_last (strip (text sg)) with
      | None => ([], buffer', false)
      | Some c =>
          if str_in c terminators then
            let '(ls, b, ok) := scan [] rest in
            (join (u " ") buffer' :: ls, b, ok)
          else scan buffer' rest
      end
  end.

(** A state with the console fields replaced. *)
Definition with_console (s : Store) (out : list str) (buf : list str) : Store :=
  {| fs := fs s; stdout := out; calls := calls s; result := result s;
     text_buffer := buf |}.

(** Calls that transcribe or render. *)
Definition renders (c : call) : bool :=
  match c with
  | Call_transcribe _ _ _ | Call_OutputHandler _ _ => true
  | _ => false
  end.

(** Calls to the output handler. *)
Definition handler_call (c : call) : bool :=
  match c with
  | Call_OutputHandler _ _ => true
  | _ => false
  end.

(** Calls to the decoder. *)
Definition transcribe_call (c : call) : bool :=
  match c with
  | Call_transcribe _ _ _ => true
  | _ => false
  end.

(** The variable [result] at the end of a run: never assigned, with no
    transcription made, or holding what the decoder returned for the quoted
    input path. *)
Definition result_kept (cmd_cwd : str)
  (whisper_transcribe : str -> bool -> option str -> TranscriptionResult)
  (filename lang : option str) (final : Store) : Prop :=
  (result final = None /\
   forallb (fun c => negb (transcribe_call c)) (calls final) = true) \/
  (exists fname,
     filename = Some fname /\
     let r := whisper_transcribe (quote (os_path_join cmd_cwd fname)) false lang in
     result final = Some r /\
     option_map segments (result final) = Some (segments r) /\
     option_map (fun x => map text (segments x)) (result final)
     = Some (map text (segments r)) /\
     option_map (fun x => map start (segments x)) (result final)
     = Some (map start (segments r)) /\
     option_map (fun x => map end_ (segments x)) (result final)
     = Some (map end_ (segments r))).

(** Modelled from the spec: the format strings the missing renderer
    recognizes. *)
Definition recognized : list str := [u "txt"; u "json"; u "srt"; u "tsv"; u "vtt"].

(** ** A concrete world *)

(** A small world: the command is run in [/home/u], where [talk.wav] and
    [old.txt] exist; the decoder returns the given texts; the renderer
    serializes JSON as [{}] and may create any file. *)
Module Demo.

Definition cwd : str := u "/home/u".

Definition files : list (str * fs_entry) :=
  [(u "/home/u/talk.wav", File []); (u "/home/u/old.txt", File (u "kept"))].

Definition decoder (texts : list str) : str -> bool -> option str -> TranscriptionResult :=
  fun _ _ _ => tr texts.

Definition handler : str -> option str -> M unit :=
  output_handler.write (fun _ => u "{}") (fun _ => true).

Definition talk : option str := Some (u "talk.wav").

End Demo.

(** ** Definitions for further properties of the command *)

(** An option as the command's truth tests see it: the empty string
    counts as no value. *)
Definition absent_if_empty (o : option str) : option str :=
  match o with
  | Some [] => None
  | _ => o
  end.

(** Characters that are not white space, and the last of them in a text. *)
Definition nonspace (c : char) : bool := negb (isspace c).

Definition last_nonspace (t : str) : option char := list_last (filter nonspace t).

(** The sentences completed within the texts: the lines of
    [group_sentences] without the final line for what is still buffered. *)
Fixpoint complete_sentences (buffer : list str) (texts : list str) : list str :=
  match texts with
  | [] => []
  | t :: rest =>
      let buffer' := buffer ++ [strip t] in
      if ends_sentence (strip t)
      then join (u " ") buffer' :: complete_sentences [] rest
      else complete_sentences buffer' rest
  end.

(** What is still in the buffer after the texts: the trimmed texts since
    the last sentence end. *)
Fixpoint remainder (buffer : list str) (texts : list str) : list str :=
  match texts with
  | [] => buffer
  | t :: rest =>
      if ends_sentence (strip t) then remainder [] rest
      else remainder (buffer ++ [strip t]) rest
  end.

(** A text that is not empty and neither starts nor ends with white
    space. *)
Definition tidy (x : str) : Prop :=
  exists c r d, x = c :: r /\ isspace c = false /\
                list_last x = Some d /\ isspace d = false.

(** The number of texts that end a sentence once trimmed. *)
Definition sentence_ends (texts : list str) : nat :=
  List.length (filter (fun t => ends_sentence (strip t)) texts).

(** Whether the last text leaves a sentence unfinished. *)
Definition unfinished (texts : list str) : bool :=
  match list_last texts with
  | Some t => negb (ends_sentence (strip t))
  | None => false
  end.

(** The escape [shlex.quote] applies between the outer apostrophes. *)
Definition escape (s : str) : str :=
  flat_map (fun c =>
    if chr_eqb c apostrophe
    then [apostrophe; quotation; apostrophe; quotation; apostrophe]
    else [c]) s.

(** Whether an invocation passes the pre-flight checks of the command: a
    filename is given, the input exists, and an output that is given does
    not exist yet. *)
Definition passes_checks (cmd_cwd : str) (files : list (str * fs_entry))
  (filename output : option str) : bool :=
  match filename with
  | None | Some [] => false
  | Some fname =>
      path_exists files (os_path_join cmd_cwd fname)
      && match output with
         | Some (c :: o) => negb (path_exists files (os_path_join cmd_cwd (c :: o)))
         | _ => true
         end
  end.

(** A file system whose only file has a space in its name. *)
Definition spaced_files : list (str * fs_entry) :=
  [(u "/home/u/my talk.wav", File [])].

(** Calls that load a model. *)
Definition load_call (c : call) : bool :=
  match c with
  | Call_load_model _ => true
  | _ => false
  end.

(** An output name with a line break in it, and a file system in which the
    input [talk.wav] and a file of that name exist. *)
Definition broken_name : str := u "a" ++ [newline] ++ u "b.txt".

Definition broken_name_files : list (str * fs_entry) :=
  [(u "/home/u/talk.wav", File []);
   (u "/home/u/a" ++ [newline] ++ u "b.txt", File (u "kept"))].

(** An output handler that does nothing, for concrete runs. *)
Definition no_handler : str -> option str -> M unit := fun _ _ => ret tt.

(** ** Facts about the string operations *)

Lemma chr_eqb_eq (a b : char) : chr_eqb a b = true <-> a = b.
Proof. apply N.eqb_eq. Qed.

Lemma str_eqb_eq (a b : str) : str_eqb a b = true <-> a = b.
Proof.
  revert b. induction a as [|x a IH]; intros [|y b]; simpl; split;
    try congruence; try reflexivity.
  - intros H. apply andb_true_iff in H as [Hx Ha].
    apply chr_eqb_eq in Hx. apply IH in Ha. congruence.
  - intros H. injection H as -> ->.
    apply andb_true_iff. split; [apply N.eqb_refl | now apply IH].
Qed.

Lemma str_eqb_refl (a : str) : str_eqb a a = true.
Proof. now apply str_eqb_eq. Qed.

Lemma str_in_In (x : str) (l : list str) : str_in x l = true <-> In x l.
Proof.
  unfold str_in. rewrite existsb_exists. split.
  - intros (y & Hy & E). apply str_eqb_eq in E. now subst.
  - intros H. exists x. split; [assumption | apply str_eqb_refl].
Qed.

Lemma list_last_cons {A} (x y : A) (l : list A) :
  list_last (x :: y :: l) = list_last (y :: l).
Proof. reflexivity. Qed.

Lemma getitem_last_list_last (s : str) :
  getitem_last s = option_map (fun c => [c]) (list_last s).
Proof.
  induction s as [|c s IH]; [reflexivity|].
  destruct s as [|d s]; [reflexivity|].
  rewrite list_last_cons, <- IH. reflexivity.
Qed.

Lemma getitem_last_None (s : str) : getitem_last s = None <-> s = [].
Proof.
  split; [|now intros ->].
  induction s as [|c s IH]; [reflexivity|].
  destruct s as [|d s]; [discriminate|].
  intros H. apply IH in H. discriminate.
Qed.

(** The pieces of a split: the first one has no separator, a single piece is
    the whole string, and otherwise the string ends with the separator
    followed by the last piece, which has no separator either. *)
Lemma split_shape (sep : char) (s : str) :
  exists first rest,
    split sep s = first :: rest /\ ~ In sep first /\
    (rest = [] -> s = first) /\
    (rest <> [] ->
     exists e p, list_last rest = Some e /\ s = p ++ sep :: e /\ ~ In sep e).
Proof.
  induction s as [|c r (f & rs & E & Hf & Hone & Hmany)].
  - exists [], []. repeat split; auto. intros H. now elim H.
  - simpl. destruct (chr_eqb c sep) eqn:Ec.
    + apply chr_eqb_eq in Ec. subst c.
      exists [], (split sep r). repeat split; auto.
      * rewrite E. discriminate.
      * intros _. rewrite E. destruct rs as [|g rs].
        -- exists f, []. rewrite (Hone eq_refl). repeat split; auto.
        -- destruct Hmany as (e & p & Hl & Hs & He); [discriminate|].
           exists e, (sep :: p). rewrite list_last_cons.
           repeat split; auto. rewrite Hs. reflexivity.
    + rewrite E. exists (c :: f), rs. repeat split; auto.
      * intros [H | H]; [|now apply Hf].
        subst. unfold chr_eqb in Ec. rewrite N.eqb_refl in Ec. discriminate.
      * intros H. now rewrite (Hone H).
      * intros H. destruct (Hmany H) as (e & p & Hl & Hs & He).
        exists e, (c :: p). repeat split; auto. rewrite Hs. reflexivity.
Qed.

Lemma list_last_split (s : str) : list_last (split dot s) = Some (last_piece s).
Proof.
  unfold last_piece.
  destruct (split_shape dot s) as (f & rs & E & _). rewrite E.
  destruct rs as [|g rs]; [reflexivity|].
  rewrite list_last_cons.
  destruct (list_last (g :: rs)) eqn:H; [reflexivity|].
  exfalso. revert H. clear. revert g.
  induction rs as [|h rs IH]; intros g; [discriminate|].
  rewrite list_last_cons. apply IH.
Qed.

Lemma extension_last_piece (o : str) : extension o = ret (last_piece o).
Proof. unfold extension. now rewrite list_last_split. Qed.

(** The last piece is the text after the final separator, and the whole
    string when there is none. *)
Lemma last_piece_spec (s : str) :
  (~ In dot s /\ last_piece s = s) \/
  (exists p, s = p ++ dot :: last_piece s /\ ~ In dot (last_piece s)).
Proof.
  unfold last_piece.
  destruct (split_shape dot s) as (f & rs & E & Hf & Hone & Hmany). rewrite E.
  destruct rs as [|g rs].
  - left. rewrite (Hone eq_refl). auto.
  - right. destruct Hmany as (e & p & Hl & Hs & He); [discriminate|].
    rewrite list_last_cons, Hl. now exists p.
Qed.

Lemma last_piece_dotless (s : str) : ~ In dot s -> last_piece s = s.
Proof.
  intros H. destruct (last_piece_spec s) as [[_ E] | (p & E & _)]; [exact E|].
  elim H. rewrite E. apply in_or_app. right. now left.
Qed.

(** ** Sentences on the console *)

Lemma loop_run (segs : list Segment) : forall s,
  for_each segs console_body s =
  let '(ls, b, ok) := scan (text_buffer s) segs in
  (if ok then Return tt else Raise IndexError,
   with_console s (stdout s ++ ls) b).
Proof.
  induction segs as [|sg rest IH]; intros s.
  - simpl. unfold ret, with_console. rewrite app_nil_r. now destruct s.
  - cbn [for_each scan]. unfold bind at 1. unfold console_body at 1.
    unfold bind at 1. cbn [text_buffer_append modify].
    unfold bind at 1.
    destruct (getitem_last (strip (text sg))) as [c|] eqn:Hc.
    + cbn [ret]. destruct (str_in c terminators) eqn:Ht.
      * unfold bind at 1. cbn [gets text_buffer].
        unfold bind at 1. cbn [print modify set_text_buffer].
        rewrite IH. cbn [text_buffer stdout].
        destruct (scan [] rest) as [[ls b] ok].
        unfold with_console. cbn [fs calls result].
        rewrite <- app_assoc. reflexivity.
      * cbn [ret]. rewrite IH. cbn [text_buffer stdout].
        destruct (scan (text_buffer s ++ [strip (text sg)]) rest) as [[ls b] ok].
        reflexivity.
    + cbn [raise]. unfold with_console. cbn [fs calls result stdout].
      rewrite app_nil_r. reflexivity.
Qed.

(** The whole console branch from a state that holds the result. *)
Lemma console_run files cs r :
  console (transcribed files cs r) =
  let '(ls, b, ok) := scan [] (segments r) in
  if ok then
    (Return tt,
     {| fs := files; stdout := ls ++ match b with [] => [] | _ => [join (u " ") b] end;
        calls := cs; result := Some r; text_buffer := b |})
  else
    (Raise IndexError,
     {| fs := files; stdout := ls; calls := cs; result := Some r; text_buffer := b |}).
Proof.
  unfold console, transcribed. unfold bind at 1. cbn [set_text_buffer modify].
  unfold bind at 1. unfold result_segments, bind at 1.
  cbn [gets result ret fs stdout calls].
  unfold bind at 1. rewrite loop_run. cbn [text_buffer stdout].
  destruct (scan [] (segments r)) as [[ls b] [|]]; [|reflexivity].
  unfold bind at 1. cbn [gets with_console text_buffer].
  destruct b; cbn; [now rewrite app_nil_r | reflexivity].
Qed.

Lemma last_char_ends (t c : str) :
  getitem_last t = Some c -> str_in c terminators = ends_sentence t.
Proof.
  rewrite getitem_last_list_last. unfold ends_sentence.
  destruct (list_last t) as [x|]; [|discriminate].
  intros [= <-]. unfold str_in, terminators, terminator_chars.
  cbn [existsb u map list_ascii_of_string str_eqb N_of_ascii N_of_digits].
  cbn. now rewrite !andb_true_r.
Qed.

(** The loop fails exactly when some trimmed text is empty. *)
Lemma scan_ok (segs : list Segment) : forall buffer,
  snd (scan buffer segs) = forallb (fun sg => negb (str_eqb (strip (text sg)) [])) segs.
Proof.
  induction segs as [|sg rest IH]; intros buffer; [reflexivity|].
  cbn [scan forallb].
  destruct (getitem_last (strip (text sg))) as [c|] eqn:Hc.
  - assert (Hne : str_eqb (strip (text sg)) [] = false).
    { destruct (strip (text sg)); [discriminate | reflexivity]. }
    rewrite Hne. cbn [negb andb].
    destruct (str_in c terminators).
    + rewrite <- (IH []). now destruct (scan [] rest) as [[ls b] ok].
    + apply IH.
  - apply getitem_last_None in Hc. rewrite Hc. reflexivity.
Qed.

(** Where no trimmed text is empty, the loop and the final flush print the
    lines of the specification. *)
Lemma scan_groups (segs : list Segment) : forall buffer,
  Forall (fun sg => strip (text sg) <> []) segs ->
  let '(ls, b, ok) := scan buffer segs in
  ok = true /\
  ls ++ match b with [] => [] | _ => [join (u " ") b] end
  = group_sentences buffer (map text segs).
Proof.
  induction segs as [|sg rest IH]; intros buffer H.
  - cbn. split; [reflexivity|]. now destruct buffer.
  - inversion H as [|? ? Hsg Hrest]; subst.
    cbn [scan map group_sentences].
    destruct (getitem_last (strip (text sg))) as [c|] eqn:Hc.
    + rewrite (last_char_ends _ _ Hc).
      destruct (ends_sentence (strip (text sg))).
      * specialize (IH [] Hrest). destruct (scan [] rest) as [[ls b] ok].
        destruct IH as [-> IH]. split; [reflexivity|].
        cbn [app]. now rewrite IH.
      * apply IH, Hrest.
    + apply getitem_last_None in Hc. contradiction.
Qed.

(** ** The course of a run *)

Section Runs.

Variable cmd_cwd : str.
Variable whisper_transcribe : str -> bool -> option str -> TranscriptionResult.
Variable OutputHandler_write : str -> option str -> M unit.

#[local] Abbreviation run := (cli cmd_cwd whisper_transcribe OutputHandler_write).

(** The run of the command from a fresh state, case by case. *)
Lemma cli_run (filename lang format output : option str) files :
  run filename lang format output (initial files) =
  match filename with
  | None | Some [] =>
      (Raise (SystemExit (u "openai transcribe: A filename is required.")),
       stopped files [Call_load_model (u "small")])
  | Some fname =>
      let path := os_path_join cmd_cwd fname in
      let checked := [Call_load_model (u "small"); Call_get_cmd_cwd; Call_exists path] in
      if negb (path_exists files path) then
        (Raise (SystemExit (u "openai transcribe: File not found: " ++ path)),
         stopped files checked)
      else
        let r := whisper_transcribe (quote path) false lang in
        let decoded := Call_transcribe (quote path) false lang in
        match output with
        | Some (c :: o') =>
            let o := c :: o' in
            let output_path := os_path_join cmd_cwd o in
            let checked2 := checked ++ [Call_get_cmd_cwd; Call_exists output_path] in
            if path_exists files output_path then
              (Raise (SystemExit (u "openai transcribe: Output file already exists: " ++ o)),
               stopped files checked2)
            else
              let output_format :=
                match format with
                | Some (d :: f') => d :: f'
                | _ => last_piece o
                end in
              OutputHandler_write output_format (Some output_path)
                (transcribed files
                   (checked2 ++ [decoded; Call_OutputHandler output_format (Some output_path)]) r)
        | _ =>
            match format with
            | Some (d :: f') =>
                OutputHandler_write (d :: f') None
                  (transcribed files
                     (checked ++ [decoded; Call_OutputHandler (d :: f') None]) r)
            | _ => console (transcribed files (checked ++ [decoded]) r)
            end
        end
  end.
Proof.
  unfold cli.
  destruct filename as [[|a fname]|]; try reflexivity.
  cbv beta zeta.
  unfold bind at 1. cbn [load_model log modify truthy negb].
  unfold bind at 1. cbn [ret].
  unfold bind at 1. unfold get_cmd_cwd at 1. unfold bind at 1.
  cbn [log modify ret as_str].
  unfold bind at 1. cbn [ret].
  unfold bind at 1. unfold os_path_exists at 1. unfold bind at 1.
  cbn [log modify gets fs calls initial app stdout result text_buffer].
  fold (path_exists files (os_path_join cmd_cwd (a :: fname))).
  destruct (path_exists files (os_path_join cmd_cwd (a :: fname))) eqn:Hin;
    [|reflexivity].
  cbn [negb]. unfold bind at 1. cbn [ret].
  destruct output as [[|c o']|].
  - destruct format as [[|d f']|]; reflexivity.
  - unfold bind at 1. cbn [truthy]. unfold bind at 1.
    unfold get_cmd_cwd at 1. unfold bind at 1.
    cbn [log modify ret as_str fs calls stdout result text_buffer].
    unfold bind at 1. cbn [ret]. unfold bind at 1.
    unfold os_path_exists at 1. unfold bind at 1.
    cbn [log modify gets fs calls app stdout result text_buffer].
    fold (path_exists files (os_path_join cmd_cwd (c :: o'))).
    destruct (path_exists files (os_path_join cmd_cwd (c :: o'))) eqn:Hout;
      [reflexivity|].
    cbn [ret].
    destruct format as [[|d f']|]; try reflexivity.
    + unfold bind at 1. unfold model_transcribe, bind at 1.
      cbn [log modify ret]. unfold bind at 1. cbn [set_result modify].
      cbn [orb truthy]. rewrite extension_last_piece. reflexivity.
    + unfold bind at 1. unfold model_transcribe, bind at 1.
      cbn [log modify ret]. unfold bind at 1. cbn [set_result modify].
      cbn [orb truthy]. rewrite extension_last_piece. reflexivity.
  - destruct format as [[|d f']|]; reflexivity.
Qed.

Lemma In_existsb (c : char) (l : str) : In c l -> existsb (chr_eqb c) l = true.
Proof.
  intros H. apply existsb_exists. exists c. split; [exact H | apply N.eqb_refl].
Qed.

(** ** Pre-flight checks *)

(** C6. With no filename argument ([None], and likewise the empty string)
    the run ends in [sys.exit] with the one-line message
    [openai transcribe: A filename is required.], that is
    [<pkg> <cmd>: <message>], and a non-zero status. The only call made
    before is the loading of the model: no working directory is asked for,
    no path is tested, nothing is transcribed or rendered, nothing is
    printed and no file changes. The function is entered with the missing
    filename and fails inside, at run time. *)
Theorem C6_filename_required (lang format output : option str) files :
  let msg := u "openai transcribe: A filename is required." in
  msg = u "openai" ++ u " " ++ u "transcribe" ++ u ": " ++ u "A filename is required." /\
  ~ In newline msg /\
  (forall filename, filename = None \/ filename = Some [] ->
   let out := run filename lang format output (initial files) in
   fst out = Raise (SystemExit msg) /\
   exit_status (fst out) <> 0%Z /\
   snd out = stopped files [Call_load_model (u "small")] /\
   calls (snd out) = [Call_load_model (u "small")] /\
   stdout (snd out) = [] /\ fs (snd out) = files /\ result (snd out) = None).
Proof.
  cbv zeta. split; [reflexivity|]. split.
  - intros H. apply In_existsb in H. vm_compute in H. discriminate.
  - intros filename [-> | ->]; rewrite cli_run; cbn [fst snd exit_status];
      repeat split; discriminate.
Qed.

Lemma literal_line (lit tail : str) :
  existsb (chr_eqb newline) lit = false ->
  In newline (lit ++ tail) -> In newline tail.
Proof.
  intros Hlit H. apply in_app_or in H as [H | H]; [|exact H].
  apply In_existsb in H. congruence.
Qed.

(** C5, amended. When the requested output path exists before the run, the
    run ends in [sys.exit] with a non-zero status and one message that
    starts with [openai transcribe: ]. The message is a single line unless
    a name supplied by the user has a line break in it: it has a line
    break only where the output name or the resolved input path has one.
    Nothing is transcribed, the output handler is never called, nothing is
    printed, and the file system is the one the run started with, so the
    file at the output path is unchanged. When the filename is given and
    the input exists, the message is [Output file already exists: <output>]
    and the run stops right after the existence check of the output
    path. *)
Theorem C5_output_exists (filename lang format : option str) (o : str) files :
  o <> [] ->
  path_exists files (os_path_join cmd_cwd o) = true ->
  let out := run filename lang format (Some o) (initial files) in
  exists msg cs,
    fst out = Raise (SystemExit msg) /\
    exit_status (fst out) <> 0%Z /\
    snd out = stopped files cs /\
    (exists detail, msg = u "openai transcribe: " ++ detail) /\
    msg = match filename with
          | None | Some [] => u "openai transcribe: A filename is required."
          | Some fname =>
              if path_exists files (os_path_join cmd_cwd fname)
              then u "openai transcribe: Output file already exists: " ++ o
              else u "openai transcribe: File not found: " ++ os_path_join cmd_cwd fname
          end /\
    (In newline msg ->
     In newline o \/
     exists fname, filename = Some fname /\ In newline (os_path_join cmd_cwd fname)) /\
    forallb (fun c => negb (renders c)) cs = true /\
    stdout (snd out) = [] /\ result (snd out) = None /\
    fs (snd out) = files /\
    fs_lookup (fs (snd out)) (os_path_join cmd_cwd o)
    = fs_lookup files (os_path_join cmd_cwd o) /\
    (forall fname, filename = Some fname -> fname <> [] ->
     path_exists files (os_path_join cmd_cwd fname) = true ->
     cs = [Call_load_model (u "small"); Call_get_cmd_cwd;
           Call_exists (os_path_join cmd_cwd fname); Call_get_cmd_cwd;
           Call_exists (os_path_join cmd_cwd o)]).
Proof.
  intros Ho Hex. cbv zeta. rewrite cli_run.
  destruct o as [|c o']; [contradiction|].
  destruct filename as [[|a fname]|].
  - do 2 eexists. repeat split; try reflexivity; try discriminate.
    + now exists (u "A filename is required.").
    + intros H. apply In_existsb in H. vm_compute in H. discriminate.
    + intros fname [= <-] Hne. contradiction.
  - cbv zeta.
    destruct (path_exists files (os_path_join cmd_cwd (a :: fname))) eqn:Hin;
      cbn [negb].
    + rewrite Hex. do 2 eexists. repeat split; try reflexivity; try discriminate.
      * now exists (u "Output file already exists: " ++ c :: o').
      * intros H. left. revert H. now apply literal_line.
      * intros f [= <-] _ _. reflexivity.
    + do 2 eexists. repeat split; try reflexivity; try discriminate.
      * now exists (u "File not found: " ++ os_path_join cmd_cwd (a :: fname)).
      * intros H. right. exists (a :: fname). split; [reflexivity|].
        revert H. now apply literal_line.
      * intros f [= <-] _ H. congruence.
  - do 2 eexists. repeat split; try reflexivity; try discriminate.
    + now exists (u "A filename is required.").
    + intros H. apply In_existsb in H. vm_compute in H. discriminate.
Qed.

(** ** The choice between the output handler and the console *)

Lemma console_calls files cs r :
  calls (snd (console (transcribed files cs r))) = cs /\
  result (snd (console (transcribed files cs r))) = Some r /\
  fs (snd (console (transcribed files cs r))) = files.
Proof.
  rewrite console_run. destruct (scan [] (segments r)) as [[ls b] [|]];
    repeat split.
Qed.

(** C9. An option counts as given when it is present and not the empty
    string, which is the test the code applies to it. On a run that passes
    the pre-flight checks: with a format given and no output, the command
    hands over to the output handler built with that format and no file
    path, right after the transcription and with nothing printed; with
    neither given it runs the sentence grouping, and no handler is called;
    and as soon as one of the two is given the command hands over to the
    handler, so the grouping runs only when both are absent. *)
Theorem C9_format_without_output (fname : str) (lang format output : option str) files :
  fname <> [] ->
  path_exists files (os_path_join cmd_cwd fname) = true ->
  (forall o, output = Some o -> o <> [] ->
   path_exists files (os_path_join cmd_cwd o) = false) ->
  let path := os_path_join cmd_cwd fname in
  let r := whisper_transcribe (quote path) false lang in
  let checked := [Call_load_model (u "small"); Call_get_cmd_cwd; Call_exists path] in
  let decoded := Call_transcribe (quote path) false lang in
  let out := run (Some fname) lang format output (initial files) in
  (truthy format = true -> truthy output = false ->
   exists f, format = Some f /\
     out = OutputHandler_write f None
             (transcribed files (checked ++ [decoded; Call_OutputHandler f None]) r)) /\
  (truthy format = false -> truthy output = false ->
   out = console (transcribed files (checked ++ [decoded]) r) /\
   forallb (fun c => negb (handler_call c)) (calls (snd out)) = true) /\
  (truthy format || truthy output = true ->
   exists fmt dest cs,
     out = OutputHandler_write fmt dest
             (transcribed files (cs ++ [Call_OutputHandler fmt dest]) r)).
Proof.
  intros Hf Hin Hout. cbv zeta. rewrite cli_run.
  destruct fname as [|a fname]; [contradiction|]. cbv zeta.
  rewrite Hin. cbn [negb].
  destruct output as [[|c o']|].
  - destruct format as [[|d f']|]; cbn [truthy orb]; repeat split;
      try discriminate; intros.
    + rewrite (proj1 (console_calls _ _ _)). reflexivity.
    + now exists (d :: f').
    + eexists _, _, (_ :: _ :: _ :: [_]). reflexivity.
    + rewrite (proj1 (console_calls _ _ _)). reflexivity.
  - rewrite (Hout _ eq_refl) by discriminate.
    destruct format as [[|d f']|]; cbn [truthy orb]; repeat split;
      try discriminate; intros;
      eexists _, _, (_ :: _ :: _ :: _ :: _ :: [_]); reflexivity.
  - destruct format as [[|d f']|]; cbn [truthy orb]; repeat split;
      try discriminate; intros.
    + rewrite (proj1 (console_calls _ _ _)). reflexivity.
    + now exists (d :: f').
    + eexists _, _, (_ :: _ :: _ :: [_]). reflexivity.
    + rewrite (proj1 (console_calls _ _ _)). reflexivity.
Qed.

(** C3. Without an explicit format the format is [output.split(".")[-1]],
    the text after the final [.] of the destination (the whole name when it
    has none), and from there on the run is the one with that format given
    explicitly: the two invocations are the same computation, for every
    destination and in particular for [out.vtt] and [vtt]. On a run that
    passes the checks both hand the same format, the same destination and
    the same state holding the result to the output handler. *)
Theorem C3_extension_inference (filename lang : option str) (o : str) files :
  run filename lang None (Some o) (initial files)
  = run filename lang (Some (last_piece o)) (Some o) (initial files) /\
  extension o = ret (last_piece o) /\
  ((~ In dot o /\ last_piece o = o) \/
   (exists p, o = p ++ dot :: last_piece o /\ ~ In dot (last_piece o))) /\
  last_piece (u "out.vtt") = u "vtt" /\
  run filename lang None (Some (u "out.vtt")) (initial files)
  = run filename lang (Some (u "vtt")) (Some (u "out.vtt")) (initial files) /\
  (forall fname, filename = Some fname -> fname <> [] -> o <> [] ->
   path_exists files (os_path_join cmd_cwd fname) = true ->
   path_exists files (os_path_join cmd_cwd o) = false ->
   let path := os_path_join cmd_cwd fname in
   let dest := Some (os_path_join cmd_cwd o) in
   run filename lang None (Some o) (initial files)
   = OutputHandler_write (last_piece o) dest
       (transcribed files
          [Call_load_model (u "small"); Call_get_cmd_cwd; Call_exists path;
           Call_get_cmd_cwd; Call_exists (os_path_join cmd_cwd o);
           Call_transcribe (quote path) false lang;
           Call_OutputHandler (last_piece o) dest]
          (whisper_transcribe (quote path) false lang))).
Proof.
  split; [|split; [|split; [|split; [|split]]]].
  - rewrite !cli_run.
    destruct filename as [[|a fname]|]; try reflexivity. cbv zeta.
    destruct (negb _); [reflexivity|].
    destruct o as [|c o']; [reflexivity|].
    destruct (path_exists files (os_path_join cmd_cwd (c :: o'))); [reflexivity|].
    destruct (last_piece (c :: o')) eqn:E; [rewrite ?E|]; reflexivity.
  - apply extension_last_piece.
  - apply last_piece_spec.
  - reflexivity.
  - rewrite !cli_run.
    destruct filename as [[|a fname]|]; reflexivity.
  - intros fname -> Hf Ho Hin Hout. cbv zeta. rewrite cli_run.
    destruct fname as [|a fname]; [contradiction|].
    destruct o as [|c o']; [contradiction|]. cbv zeta.
    rewrite Hin, Hout. reflexivity.
Qed.

(** C10. The derivation [output.split(".")[-1]] never fails, and for a
    destination without [.] it yields the whole name, so that [txt] gives
    the format [txt]. On a run that passes the checks with such a
    destination and no format, the output handler is built with the whole
    name as its format. *)
Theorem C10_dotless_destination (fname : str) (lang format : option str) (o : str) files :
  ~ In dot o ->
  extension o = ret o /\
  (forall any, exists e, extension any = ret e) /\
  extension (u "txt") = ret (u "txt") /\
  (o <> [] -> truthy format = false -> fname <> [] ->
   path_exists files (os_path_join cmd_cwd fname) = true ->
   path_exists files (os_path_join cmd_cwd o) = false ->
   let path := os_path_join cmd_cwd fname in
   let dest := Some (os_path_join cmd_cwd o) in
   run (Some fname) lang format (Some o) (initial files)
   = OutputHandler_write o dest
       (transcribed files
          [Call_load_model (u "small"); Call_get_cmd_cwd; Call_exists path;
           Call_get_cmd_cwd; Call_exists (os_path_join cmd_cwd o);
           Call_transcribe (quote path) false lang;
           Call_OutputHandler o dest]
          (whisper_transcribe (quote path) false lang))).
Proof.
  intros Hdot. repeat split.
  - rewrite extension_last_piece. now rewrite (last_piece_dotless _ Hdot).
  - intros any. exists (last_piece any). apply extension_last_piece.
  - intros Ho Hfmt Hf Hin Hout. cbv zeta. rewrite cli_run.
    destruct fname as [|a fname]; [contradiction|].
    destruct o as [|c o']; [contradiction|]. cbv zeta.
    rewrite Hin, Hout. cbn [negb].
    rewrite (last_piece_dotless _ Hdot).
    destruct format as [[|d f']|]; try reflexivity. discriminate.
Qed.

(** ** The console branch *)

Lemma lstrip_nil (t : str) : lstrip t = [] <-> forallb isspace t = true.
Proof.
  induction t as [|c t IH]; simpl; [tauto|].
  destruct (isspace c); simpl; [exact IH|].
  split; discriminate.
Qed.

Lemma lstrip_head (t : str) (c : char) (r : str) :
  lstrip t = c :: r -> isspace c = false.
Proof.
  induction t as [|d t IH]; simpl; [discriminate|].
  destruct (isspace d) eqn:E; [exact IH|]. now intros [= <- _].
Qed.

(** A text trims to nothing exactly when it is empty or all white space. *)
Lemma strip_nil (t : str) : strip t = [] <-> forallb isspace t = true.
Proof.
  unfold strip, rstrip. split.
  - intros H. apply lstrip_nil.
    assert (H' : lstrip (rev (lstrip t)) = []).
    { rewrite <- (rev_involutive (lstrip (rev (lstrip t)))), H. reflexivity. }
    apply lstrip_nil in H'.
    destruct (lstrip t) as [|c r] eqn:E; [reflexivity|].
    apply lstrip_head in E. rewrite forallb_forall in H'.
    rewrite (H' c) in E; [discriminate|]. apply in_rev. rewrite rev_involutive.
    now left.
  - intros H. apply lstrip_nil in H. rewrite H. reflexivity.
Qed.

Lemma nonempty_all (segs : list Segment) :
  forallb (fun sg => negb (str_eqb (strip (text sg)) [])) segs = true
  <-> Forall (fun sg => strip (text sg) <> []) segs.
Proof.
  rewrite forallb_forall, Forall_forall. split; intros H sg Hin.
  - specialize (H sg Hin). intros E. rewrite E in H. discriminate.
  - specialize (H sg Hin). destruct (strip (text sg)); [contradiction | reflexivity].
Qed.

Lemma nonempty_some (segs : list Segment) :
  forallb (fun sg => negb (str_eqb (strip (text sg)) [])) segs = false
  <-> Exists (fun sg => strip (text sg) = []) segs.
Proof.
  induction segs as [|sg rest IH]; cbn [forallb].
  - split; [discriminate | intros H; inversion H].
  - destruct (strip (text sg)) as [|c t] eqn:E; cbn [str_eqb negb andb].
    + split; [|reflexivity]. intros _. now left.
    + rewrite IH. split; intros H; [now right|].
      inversion H as [? ? H'|]; subst; [congruence | assumption].
Qed.

(** C2. On a run that reaches the sentence grouping, the body of the loop
    indexes [segment["text"].strip()[-1]] with no test for emptiness: on a
    segment whose text is empty or all white space it raises [IndexError]
    (after appending the empty text to the buffer). So the run ends in
    [IndexError] exactly when some segment has an empty trimmed text, and
    it ends normally exactly when every trimmed text is non-empty. *)
Theorem C2_empty_segment (fname : str) (lang format output : option str) files :
  fname <> [] ->
  path_exists files (os_path_join cmd_cwd fname) = true ->
  truthy format = false -> truthy output = false ->
  let r := whisper_transcribe (quote (os_path_join cmd_cwd fname)) false lang in
  let out := run (Some fname) lang format output (initial files) in
  (forall sg, strip (text sg) = [] <-> forallb isspace (text sg) = true) /\
  (forall sg s, strip (text sg) = [] ->
   console_body sg s
   = (Raise IndexError, with_console s (stdout s) (text_buffer s ++ [[]]))) /\
  (fst out = Raise IndexError <-> Exists (fun sg => strip (text sg) = []) (segments r)) /\
  (fst out = Return tt <-> Forall (fun sg => strip (text sg) <> []) (segments r)).
Proof.
  intros Hf Hin Hfmt Hout. cbv zeta.
  split; [intros sg; apply strip_nil|].
  split.
  { intros sg s E. unfold console_body. rewrite E. reflexivity. }
  rewrite cli_run. destruct fname as [|a fname]; [contradiction|]. cbv zeta.
  rewrite Hin. cbn [negb].
  set (r := whisper_transcribe _ false lang).
  assert (Hrun : forall cs,
    fst (console (transcribed files cs r))
    = if forallb (fun sg => negb (str_eqb (strip (text sg)) [])) (segments r)
      then Return tt else Raise IndexError).
  { intros cs. rewrite console_run, <- (scan_ok (segments r) []).
    now destruct (scan [] (segments r)) as [[ls b] [|]]. }
  rewrite <- nonempty_all, <- nonempty_some.
  destruct output as [[|c o']|]; try discriminate;
    destruct format as [[|d f']|]; try discriminate; rewrite Hrun;
    destruct (forallb _ (segments r)); split; split; congruence.
Qed.

(** C1. On a run that passes the checks with neither a format nor an output
    given, and in which every segment's trimmed text is non-empty, the run
    ends normally and the console shows exactly the lines of
    [group_sentences]: the segments in order, each text trimmed and
    appended to the buffer, the buffer joined by single spaces printed as
    one line exactly when the trimmed text ends with one of the six marks,
    and a non-empty rest printed as the last line. For the texts [Hello],
    [world.], [Next sentence.] these are the two lines [Hello world.] and
    [Next sentence.]; for [Hello], [world] it is the line [Hello world]. *)
Theorem C1_sentence_grouping (fname : str) (lang format output : option str) files :
  fname <> [] ->
  path_exists files (os_path_join cmd_cwd fname) = true ->
  truthy format = false -> truthy output = false ->
  let r := whisper_transcribe (quote (os_path_join cmd_cwd fname)) false lang in
  Forall (fun sg => strip (text sg) <> []) (segments r) ->
  let out := run (Some fname) lang format output (initial files) in
  fst out = Return tt /\
  stdout (snd out) = group_sentences [] (map text (segments r)) /\
  (map text (segments r) = [u "Hello"; u "world."; u "Next sentence."] ->
   stdout (snd out) = [u "Hello world."; u "Next sentence."]) /\
  (map text (segments r) = [u "Hello"; u "world"] ->
   stdout (snd out) = [u "Hello world"]).
Proof.
  intros Hf Hin Hfmt Hout r Hseg out.
  assert (Hrun : fst out = Return tt /\
                 stdout (snd out) = group_sentences [] (map text (segments r))).
  { subst out. rewrite cli_run.
    destruct fname as [|a fname]; [contradiction|]. cbv zeta.
    rewrite Hin. cbn [negb]. fold r.
    assert (Hc : forall cs,
      fst (console (transcribed files cs r)) = Return tt /\
      stdout (snd (console (transcribed files cs r)))
      = group_sentences [] (map text (segments r))).
    { intros cs. rewrite console_run.
      pose proof (scan_groups (segments r) [] Hseg) as H.
      destruct (scan [] (segments r)) as [[ls b] ok].
      destruct H as [-> H]. now split. }
    destruct output as [[|c o']|]; try discriminate;
      destruct format as [[|d f']|]; try discriminate; apply Hc. }
  destruct Hrun as [Hok Hlines]. repeat split; try assumption.
  - intros E. rewrite Hlines, E. reflexivity.
  - intros E. rewrite Hlines, E. reflexivity.
Qed.

(** ** The result is only read *)

Lemma result_kept_intro filename lang fname final :
  filename = Some fname ->
  result final
  = Some (whisper_transcribe (quote (os_path_join cmd_cwd fname)) false lang) ->
  result_kept cmd_cwd whisper_transcribe filename lang final.
Proof.
  intros -> E. right. exists fname. split; [reflexivity|]. cbv zeta.
  rewrite E. repeat split.
Qed.

(** C8. The command stores the decoder's result once and from then on only
    reads it. After the sentence grouping, whether it ends normally or in
    [IndexError], [result] holds exactly what the decoder returned: the
    same segments in the same order, with the same texts, starts and ends;
    the loop only fills the separate [text_buffer] with trimmed copies of
    the texts. On the other branch the command itself does nothing after
    the output handler returns, so the same holds whenever the handler
    leaves [result] alone. *)
Theorem C8_segments_not_mutated (filename lang format output : option str) files :
  let out := run filename lang format output (initial files) in
  (truthy format || truthy output = false -> result_kept cmd_cwd whisper_transcribe filename lang (snd out)) /\
  ((forall f d s, result (snd (OutputHandler_write f d s)) = result s) ->
   result_kept cmd_cwd whisper_transcribe filename lang (snd out)).
Proof.
  cbv zeta. rewrite cli_run.
  destruct filename as [[|a fname]|];
    try (split; intros _; left; split; reflexivity).
  cbv zeta.
  destruct (path_exists files (os_path_join cmd_cwd (a :: fname))); cbn [negb];
    [|split; intros _; left; split; reflexivity].
  destruct output as [[|c o']|].
  - destruct format as [[|d f']|]; cbn [truthy orb]; split; intros H;
      try discriminate;
      (apply result_kept_intro with (fname := a :: fname); [reflexivity|]);
      try apply console_calls.
    rewrite H. reflexivity.
  - destruct (path_exists files (os_path_join cmd_cwd (c :: o')));
      [split; intros _; left; split; reflexivity|].
    destruct format as [[|d f']|]; cbn [truthy orb]; split; intros H;
      try discriminate;
      (apply result_kept_intro with (fname := a :: fname); [reflexivity|]);
      rewrite H; reflexivity.
  - destruct format as [[|d f']|]; cbn [truthy orb]; split; intros H;
      try discriminate;
      (apply result_kept_intro with (fname := a :: fname); [reflexivity|]);
      try apply console_calls.
    rewrite H. reflexivity.
Qed.

End Runs.

(** ** Formats the renderer does not know *)

(** One comparison of [format_kind] on a string that [H] says is not
    recognized: the comparison fails. *)
Ltac kind_case f lit H :=
  let E := fresh "E" in
  destruct (str_eqb f lit) eqn:E;
  [apply str_eqb_eq in E; elim H; rewrite E; cbn; tauto|].

Lemma format_kind_None (f : str) :
  ~ In f recognized -> output_handler.format_kind f = None.
Proof.
  intros H. unfold output_handler.format_kind.
  kind_case f (u "txt") H. kind_case f (u "json") H. kind_case f (u "srt") H.
  kind_case f (u "tsv") H. kind_case f (u "vtt") H. reflexivity.
Qed.

Section Rendering.

Variable json_dumps : TranscriptionResult -> str.
Variable writable : str -> bool.
Variable cmd_cwd : str.
Variable whisper_transcribe : str -> bool -> option str -> TranscriptionResult.

#[local] Abbreviation write := (output_handler.write json_dumps writable).
#[local] Abbreviation run := (cli cmd_cwd whisper_transcribe write).

Lemma write_unsupported (f : str) (dest : option str) (s : Store) :
  ~ In f recognized -> write f dest s = (Raise (UnsupportedFormatError f), s).
Proof.
  intros H. unfold output_handler.write. now rewrite (format_kind_None _ H).
Qed.

(** The renderer only reads the result. *)
Lemma write_keeps_result (f : str) (dest : option str) (s : Store) :
  result (snd (write f dest s)) = result s.
Proof.
  unfold output_handler.write.
  destruct (output_handler.format_kind f) as [k|]; [|reflexivity].
  unfold bind, gets. destruct (result s) as [r|] eqn:E; [|exact E].
  destruct (output_handler.render json_dumps k r); [|exact E].
  destruct dest as [p|]; [|exact E].
  unfold output_handler.create_file. destruct (writable p); exact E.
Qed.

(** C4. On a run that passes the pre-flight checks, rendering fails with
    [UnsupportedFormatError] when no format is given and the text after the
    final [.] of the destination is none of [txt], [json], [srt], [tsv],
    [vtt] (as for [out.mp3], whose extension is [mp3]), and likewise when
    the format given is none of the five; no file is created and nothing
    is printed. The renderer itself raises the error for every format
    string outside the five, whatever the destination. *)
Theorem C4_unsupported_format (fname : str) (lang format output : option str) files :
  fname <> [] ->
  path_exists files (os_path_join cmd_cwd fname) = true ->
  (forall o, output = Some o -> o <> [] ->
   path_exists files (os_path_join cmd_cwd o) = false) ->
  let out := run (Some fname) lang format output (initial files) in
  (forall o, output = Some o -> o <> [] -> truthy format = false ->
   ~ In (last_piece o) recognized ->
   fst out = Raise (UnsupportedFormatError (last_piece o)) /\
   fs (snd out) = files /\ stdout (snd out) = []) /\
  (forall f, format = Some f -> f <> [] -> ~ In f recognized ->
   fst out = Raise (UnsupportedFormatError f) /\
   fs (snd out) = files /\ stdout (snd out) = []) /\
  (forall f dest s, ~ In f recognized ->
   write f dest s = (Raise (UnsupportedFormatError f), s)) /\
  last_piece (u "out.mp3") = u "mp3" /\ ~ In (u "mp3") recognized /\
  (output = Some (u "out.mp3") -> truthy format = false ->
   fst out = Raise (UnsupportedFormatError (u "mp3"))).
Proof.
  intros Hf Hin Hout. cbv zeta.
  destruct fname as [|a fname]; [contradiction|].
  assert (Hext : forall o, output = Some o -> o <> [] -> truthy format = false ->
    ~ In (last_piece o) recognized ->
    fst (run (Some (a :: fname)) lang format output (initial files))
    = Raise (UnsupportedFormatError (last_piece o)) /\
    fs (snd (run (Some (a :: fname)) lang format output (initial files))) = files /\
    stdout (snd (run (Some (a :: fname)) lang format output (initial files))) = []).
  { intros o -> Ho Hfmt Hbad. rewrite cli_run. cbv zeta.
    destruct o as [|c o']; [contradiction|].
    rewrite Hin, (Hout _ eq_refl) by discriminate. cbn [negb].
    destruct format as [[|d f']|]; try discriminate;
      rewrite write_unsupported by exact Hbad; repeat split. }
  assert (Hbad3 : ~ In (u "mp3") recognized).
  { intros H. apply str_in_In in H. vm_compute in H. discriminate. }
  split; [exact Hext|]. split; [|split; [|split; [|split]]].
  - intros f -> Hne Hbad. rewrite cli_run. cbv zeta. rewrite Hin. cbn [negb].
    destruct f as [|d f']; [contradiction|].
    destruct output as [[|c o']|];
      try (rewrite (Hout _ eq_refl) by discriminate);
      rewrite write_unsupported by exact Hbad; repeat split.
  - intros f dest s. apply write_unsupported.
  - reflexivity.
  - exact Hbad3.
  - intros E Hfmt. apply (Hext _ E); [discriminate | exact Hfmt | exact Hbad3].
Qed.

End Rendering.

(** ** Time stamps *)

(** C7. For [t = 61.5] seconds the conversion rounds [t * 1000] to 61500
    milliseconds, splits them into 0 hours, 1 minute, 1 second and 500
    milliseconds, and pads the fields to two, two, two and three digits:
    [00:01:01,500] with the comma of SubRip and [00:01:01.500] with the
    period of WebVTT; a SubRip block and a WebVTT block of a segment that
    starts and ends at 61.5 carry these stamps. *)
Theorem C7_timestamp_61_5 :
  output_handler.milliseconds 61.5%float = Some 61500%Z /\
  (61500 / 3600000 = 0 /\ 61500 mod 3600000 / 60000 = 1 /\
   61500 mod 3600000 mod 60000 / 1000 = 1 /\
   61500 mod 3600000 mod 60000 mod 1000 = 500)%Z /\
  output_handler.srt_timestamp 61.5%float = Some (u "00:01:01,500") /\
  output_handler.vtt_timestamp 61.5%float = Some (u "00:01:01.500") /\
  (let s := {| id := None; start := 61.5%float; end_ := 61.5%float; text := u "Hi." |} in
   output_handler.srt_block 1 s
   = Some (output_handler.line (u "1")
           ++ output_handler.line (u "00:01:01,500 --> 00:01:01,500")
           ++ output_handler.line (u "Hi.") ++ output_handler.line [])
   /\ output_handler.vtt_block s
      = Some (output_handler.line (u "00:01:01.500 --> 00:01:01.500")
              ++ output_handler.line (u "Hi.") ++ output_handler.line [])).
Proof.
  repeat split; vm_compute; reflexivity.
Qed.

(** ** Concrete runs *)

Lemma C1_sentence_grouping_witness :
  let out := cli Demo.cwd (Demo.decoder [u "Hello"; u "world."; u "Next sentence."])
               Demo.handler Demo.talk None None None (initial Demo.files) in
  fst out = Return tt /\
  stdout (snd out) = [u "Hello world."; u "Next sentence."].
Proof.
  cbv zeta.
  assert (Hseg : Forall (fun sg => strip (text sg) <> [])
                   (segments (tr [u "Hello"; u "world."; u "Next sentence."]))).
  { repeat constructor; discriminate. }
  destruct (C1_sentence_grouping Demo.cwd
              (Demo.decoder [u "Hello"; u "world."; u "Next sentence."])
              Demo.handler (u "talk.wav") None None None Demo.files
              ltac:(discriminate) eq_refl eq_refl eq_refl Hseg)
    as (Hok & _ & Hlines & _).
  split; [exact Hok | apply Hlines; reflexivity].
Defined.

Lemma C2_empty_segment_witness :
  fst (cli Demo.cwd (Demo.decoder [u "Hello."; u "  "; u "world."])
         Demo.handler Demo.talk None None None (initial Demo.files))
  = Raise IndexError.
Proof.
  destruct (C2_empty_segment Demo.cwd
              (Demo.decoder [u "Hello."; u "  "; u "world."])
              Demo.handler (u "talk.wav") None None None Demo.files
              ltac:(discriminate) eq_refl eq_refl eq_refl)
    as (_ & _ & [_ Herr] & _).
  apply Herr. right. left. reflexivity.
Defined.

Lemma C4_unsupported_format_witness :
  fst (cli Demo.cwd (Demo.decoder [u "Hello."]) Demo.handler
         Demo.talk None None (Some (u "out.mp3")) (initial Demo.files))
  = Raise (UnsupportedFormatError (u "mp3")).
Proof.
  assert (Hfree : forall o, Some (u "out.mp3") = Some o -> o <> [] ->
            path_exists Demo.files (os_path_join Demo.cwd o) = false).
  { intros o [= <-] _. reflexivity. }
  destruct (C4_unsupported_format (fun _ => u "{}") (fun _ => true) Demo.cwd
              (Demo.decoder [u "Hello."]) (u "talk.wav") None None
              (Some (u "out.mp3")) Demo.files
              ltac:(discriminate) eq_refl Hfree)
    as (_ & _ & _ & _ & _ & H).
  apply H; reflexivity.
Defined.

Lemma C5_output_exists_witness :
  let out := cli Demo.cwd (Demo.decoder [u "Hello."]) Demo.handler
               Demo.talk None None (Some (u "old.txt")) (initial Demo.files) in
  fst out = Raise (SystemExit (u "openai transcribe: Output file already exists: old.txt")) /\
  fs_lookup (fs (snd out)) (u "/home/u/old.txt") = Some (File (u "kept")) /\
  result (snd out) = None.
Proof.
  cbv zeta.
  destruct (C5_output_exists Demo.cwd (Demo.decoder [u "Hello."]) Demo.handler
              Demo.talk None None (u "old.txt") Demo.files
              ltac:(discriminate) eq_refl)
    as (msg & cs & Hout & _ & _ & _ & Hmsg & _ & _ & _ & Hres & _ & Hfile & _).
  split; [rewrite Hout, Hmsg; reflexivity|].
  split; [|exact Hres].
  change (u "/home/u/old.txt") with (os_path_join Demo.cwd (u "old.txt")).
  rewrite Hfile. reflexivity.
Defined.

Lemma C9_format_without_output_witness :
  cli Demo.cwd (Demo.decoder [u "Hello."]) Demo.handler
    Demo.talk None (Some (u "srt")) None (initial Demo.files)
  = Demo.handler (u "srt") None
      (transcribed Demo.files
         [Call_load_model (u "small"); Call_get_cmd_cwd;
          Call_exists (u "/home/u/talk.wav");
          Call_transcribe (u "/home/u/talk.wav") false None;
          Call_OutputHandler (u "srt") None]
         (tr [u "Hello."])).
Proof.
  assert (Hfree : forall o, @None str = Some o -> o <> [] ->
            path_exists Demo.files (os_path_join Demo.cwd o) = false).
  { intros o H. discriminate H. }
  destruct (C9_format_without_output Demo.cwd (Demo.decoder [u "Hello."])
              Demo.handler (u "talk.wav") None (Some (u "srt")) None Demo.files
              ltac:(discriminate) eq_refl Hfree)
    as (H & _).
  destruct (H eq_refl eq_refl) as (f & [= <-] & E). exact E.
Defined.

Lemma C10_dotless_destination_witness :
  extension (u "txt") = ret (u "txt") /\
  cli Demo.cwd (Demo.decoder [u "Hello."]) Demo.handler
    Demo.talk None None (Some (u "txt")) (initial Demo.files)
  = Demo.handler (u "txt") (Some (u "/home/u/txt"))
      (transcribed Demo.files
         [Call_load_model (u "small"); Call_get_cmd_cwd;
          Call_exists (u "/home/u/talk.wav"); Call_get_cmd_cwd;
          Call_exists (u "/home/u/txt");
          Call_transcribe (u "/home/u/talk.wav") false None;
          Call_OutputHandler (u "txt") (Some (u "/home/u/txt"))]
         (tr [u "Hello."])).
Proof.
  assert (Hdot : ~ In dot (u "txt")).
  { intros H. apply In_existsb in H. discriminate H. }
  destruct (C10_dotless_destination Demo.cwd (Demo.decoder [u "Hello."])
              Demo.handler (u "talk.wav") None None (u "txt") Demo.files Hdot)
    as (Hext & _ & _ & Hrun).
  split; [exact Hext|].
  apply Hrun; [discriminate | reflexivity | discriminate | reflexivity | reflexivity].
Defined.

Lemma C3_extension_inference_witness :
  cli Demo.cwd (Demo.decoder [u "Hello."]) Demo.handler
    Demo.talk None None (Some (u "out.vtt")) (initial Demo.files)
  = cli Demo.cwd (Demo.decoder [u "Hello."]) Demo.handler
      Demo.talk None (Some (u "vtt")) (Some (u "out.vtt")) (initial Demo.files) /\
  fs_lookup
    (fs (snd (cli Demo.cwd (Demo.decoder [u "Hello."]) Demo.handler
                Demo.talk None None (Some (u "out.vtt")) (initial Demo.files))))
    (u "/home/u/out.vtt")
  = Some (File (u "WEBVTT" ++ [newline; newline]
               ++ u "00:00:00.000 --> 00:00:00.000" ++ [newline]
               ++ u "Hello." ++ [newline; newline])).
Proof.
  destruct (C3_extension_inference Demo.cwd (Demo.decoder [u "Hello."])
              Demo.handler Demo.talk None (u "out.vtt") Demo.files)
    as (_ & _ & _ & _ & Hsame & Hrun).
  split; [exact Hsame|].
  rewrite (Hrun (u "talk.wav") eq_refl ltac:(discriminate) ltac:(discriminate)
             eq_refl eq_refl).
  vm_compute. reflexivity.
Defined.

Lemma C6_filename_required_witness :
  cli Demo.cwd (Demo.decoder [u "Hello."]) Demo.handler
    None None None None (initial Demo.files)
  = (Raise (SystemExit (u "openai transcribe: A filename is required.")),
     stopped Demo.files [Call_load_model (u "small")]).
Proof.
  destruct (C6_filename_required Demo.cwd (Demo.decoder [u "Hello."])
              Demo.handler None None None Demo.files)
    as (_ & _ & H).
  destruct (H None (or_introl eq_refl)) as (Hfst & _ & Hsnd & _).
  rewrite <- Hfst, <- Hsnd. apply surjective_pairing.
Defined.

Lemma C8_segments_not_mutated_witness :
  result (snd (cli Demo.cwd (Demo.decoder [u "Hello"; u " world. "]) Demo.handler
                 Demo.talk None (Some (u "srt")) None (initial Demo.files)))
  = Some (tr [u "Hello"; u " world. "]).
Proof.
  destruct (C8_segments_not_mutated Demo.cwd
              (Demo.decoder [u "Hello"; u " world. "]) Demo.handler
              Demo.talk None (Some (u "srt")) None Demo.files)
    as (_ & H).
  destruct (H (write_keeps_result (fun _ => u "{}") (fun _ => true)))
    as [[Hnone _] | (fname & _ & Hkept & _)].
  - discriminate Hnone.
  - exact Hkept.
Defined.

(** ** More facts about the string operations *)

Lemma list_last_snoc {A} (l : list A) (x : A) : list_last (l ++ [x]) = Some x.
Proof.
  induction l as [|y l IH]; [reflexivity|].
  destruct l as [|z l]; [reflexivity|].
  change (list_last (y :: (z :: l) ++ [x])) with (list_last ((z :: l) ++ [x])).
  exact IH.
Qed.

Lemma list_last_Some {A} (l : list A) (x : A) :
  list_last l = Some x -> exists init, l = init ++ [x].
Proof.
  induction l as [|y l IH]; [discriminate|].
  destruct l as [|z l].
  - intros [= ->]. now exists [].
  - rewrite list_last_cons. intros H. destruct (IH H) as (init & E).
    exists (y :: init). now rewrite E.
Qed.

Lemma list_last_app_nonempty {A} (a b : list A) :
  b <> [] -> list_last (a ++ b) = list_last b.
Proof.
  intros Hb. destruct (@exists_last _ b Hb) as (init & x & ->).
  now rewrite app_assoc, !list_last_snoc.
Qed.

Lemma lstrip_suffix (t : str) :
  exists p, t = p ++ lstrip t /\ forallb isspace p = true.
Proof.
  induction t as [|c t (p & E & Hp)]; [now exists []|].
  simpl. destruct (isspace c) eqn:Ec.
  - exists (c :: p). simpl. rewrite Ec, Hp. split; [now rewrite <- E | reflexivity].
  - now exists [].
Qed.

Lemma lstrip_fixed (c : char) (r : str) :
  isspace c = false -> lstrip (c :: r) = c :: r.
Proof. intros H. simpl. now rewrite H. Qed.

(** [strip] removes a prefix and a suffix of white space and nothing
    else. *)
Lemma strip_decompose (t : str) :
  exists p q, t = p ++ strip t ++ q /\
              forallb isspace p = true /\ forallb isspace q = true.
Proof.
  unfold strip, rstrip.
  destruct (lstrip_suffix t) as (p & Et & Hp).
  destruct (lstrip_suffix (rev (lstrip t))) as (q & Em & Hq).
  exists p, (rev q). repeat split; try assumption.
  - rewrite <- rev_app_distr, <- Em, rev_involutive. exact Et.
  - rewrite forallb_forall in *. intros x Hx. apply Hq. now apply in_rev.
Qed.

(** A trimmed text that is not empty starts and ends with a character that
    is not white space. *)
Lemma strip_ends (t : str) (c : char) (r : str) :
  strip t = c :: r ->
  isspace c = false /\
  exists d, list_last (strip t) = Some d /\ isspace d = false.
Proof.
  unfold strip, rstrip. intros E.
  destruct (lstrip_suffix (rev (lstrip t))) as (q & Em & Hq).
  destruct (lstrip (rev (lstrip t))) as [|d k] eqn:Ek; [discriminate|].
  split.
  - assert (Hm : lstrip t = (c :: r) ++ rev q).
    { rewrite <- E, <- rev_app_distr, <- Em, rev_involutive. reflexivity. }
    apply (lstrip_head t c (r ++ rev q)). exact Hm.
  - exists d. split.
    + simpl rev. apply list_last_snoc.
    + apply (lstrip_head (rev (lstrip t)) d k). exact Ek.
Qed.

Lemma strip_fixed (x : str) (c d : char) (r : str) :
  x = c :: r -> isspace c = false ->
  list_last x = Some d -> isspace d = false ->
  strip x = x.
Proof.
  intros -> Hc Hl Hd. unfold strip, rstrip. rewrite (lstrip_fixed _ _ Hc).
  destruct (list_last_Some _ _ Hl) as (init & E). rewrite E.
  rewrite rev_app_distr. simpl app. rewrite (lstrip_fixed _ _ Hd).
  change (d :: rev init) with (rev [d] ++ rev init).
  now rewrite <- rev_app_distr, rev_involutive.
Qed.

Lemma filter_spaces (p : str) :
  forallb isspace p = true -> filter nonspace p = [].
Proof.
  induction p as [|c p IH]; [reflexivity|]. simpl.
  intros H. apply andb_true_iff in H as [Hc Hp].
  unfold nonspace at 1. rewrite Hc. simpl. now apply IH.
Qed.

Lemma join_cons (sep x : str) (l : list str) :
  l <> [] -> join sep (x :: l) = x ++ sep ++ join sep l.
Proof. destruct l; [contradiction | reflexivity]. Qed.

Lemma join_app (sep : str) (a b : list str) :
  a <> [] -> b <> [] -> join sep (a ++ b) = join sep a ++ sep ++ join sep b.
Proof.
  intros Ha Hb. induction a as [|x a IH]; [contradiction|].
  destruct a as [|y a].
  - simpl app. now rewrite join_cons.
  - change ((x :: y :: a) ++ b) with (x :: ((y :: a) ++ b)).
    rewrite join_cons by discriminate.
    rewrite IH by discriminate.
    rewrite (join_cons sep x (y :: a)) by discriminate.
    now rewrite <- !app_assoc.
Qed.

Lemma join_snoc_last (sep : str) (l : list str) (t : str) :
  t <> [] -> list_last (join sep (l ++ [t])) = list_last t.
Proof.
  intros Ht. destruct l as [|x l]; [reflexivity|].
  rewrite join_app by discriminate. cbn [join].
  rewrite app_assoc. now apply list_last_app_nonempty.
Qed.

Lemma escape_length (s : str) : List.length s <= List.length (escape s).
Proof.
  induction s as [|c s IH]; [apply le_n|].
  unfold escape in *. simpl. destruct (chr_eqb c apostrophe); simpl; lia.
Qed.

Lemma quote_unsafe (s : str) :
  forallb shlex_safe s = false ->
  quote s = [apostrophe] ++ escape s ++ [apostrophe].
Proof.
  intros H. destruct s as [|c s]; [discriminate|].
  unfold quote. now rewrite H.
Qed.

(** [shlex.quote] returns its argument unchanged exactly when the argument
    is not empty and has safe characters only. *)
Lemma quote_unchanged (s : str) :
  quote s = s <-> s <> [] /\ forallb shlex_safe s = true.
Proof.
  split.
  - intros E. destruct s as [|c s]; [discriminate|].
    split; [discriminate|].
    destruct (forallb shlex_safe (c :: s)) eqn:H; [reflexivity|].
    rewrite (quote_unsafe _ H) in E.
    apply (f_equal (@List.length char)) in E.
    rewrite !length_app in E. pose proof (escape_length (c :: s)). simpl in *. lia.
  - intros [Hne H]. destruct s as [|c s]; [contradiction|].
    unfold quote. now rewrite H.
Qed.

Lemma escape_injective (a : str) : forall b, escape a = escape b -> a = b.
Proof.
  unfold escape.
  induction a as [|c a IH]; intros [|d b]; simpl; try reflexivity.
  - destruct (chr_eqb d apostrophe); discriminate.
  - destruct (chr_eqb c apostrophe); discriminate.
  - destruct (chr_eqb c apostrophe) eqn:Ec, (chr_eqb d apostrophe) eqn:Ed;
      simpl; intros H.
    + apply chr_eqb_eq in Ec, Ed. subst. f_equal. apply IH.
      now injection H.
    + injection H as H _. subst d. discriminate.
    + injection H as H _. subst c. discriminate.
    + injection H as -> H. f_equal. now apply IH.
Qed.

Lemma os_path_join_nonempty (a b : str) : b <> [] -> os_path_join a b <> [].
Proof.
  intros Hb. unfold os_path_join.
  destruct (startswith slash b); [exact Hb|].
  destruct b as [|c b]; [contradiction|].
  destruct (match a with [] => true | _ => endswith slash a end);
    intros E; apply app_eq_nil in E as [_ E]; [discriminate|].
  apply app_eq_nil in E as [E _]. discriminate.
Qed.

Lemma os_path_join_absolute (a b : str) :
  startswith slash b = true -> os_path_join a b = b.
Proof. intros H. unfold os_path_join. now rewrite H. Qed.

(** The suffix after the last separator is determined by the string. *)
Lemma after_last_unique (d : char) (p : str) : forall p' e e',
  p ++ d :: e = p' ++ d :: e' -> ~ In d e -> ~ In d e' -> e = e'.
Proof.
  induction p as [|c p IH]; intros [|c' p'] e e' E He He'; simpl in E.
  - now injection E.
  - injection E as <- E. elim He. rewrite E. apply in_or_app. right. now left.
  - injection E as -> E. elim He'. rewrite <- E. apply in_or_app. right. now left.
  - injection E as _ E. now apply (IH p' e e').
Qed.

(** ** Further properties of the command *)

Section Further.

Variable cmd_cwd : str.
Variable whisper_transcribe : str -> bool -> option str -> TranscriptionResult.
Variable OutputHandler_write : str -> option str -> M unit.

#[local] Abbreviation run := (cli cmd_cwd whisper_transcribe OutputHandler_write).

(** X1. The command tests its options by truth value (lines 81, 90, 101 to
    103), so an empty string given for the filename, the format or the
    output is treated in every respect like an option that is absent. *)
Theorem empty_option_is_absent (filename lang format output : option str) files :
  run filename lang format output (initial files)
  = run (absent_if_empty filename) lang (absent_if_empty format)
      (absent_if_empty output) (initial files).
Proof.
  rewrite !cli_run.
  destruct filename as [[|a fname]|]; try reflexivity.
  cbn [absent_if_empty]. cbv zeta.
  destruct (negb _); [reflexivity|].
  destruct output as [[|c o']|]; cbn [absent_if_empty];
    destruct format as [[|d f']|]; reflexivity.
Qed.

(** X2. When a filename is given and the resolved input path does not
    exist (lines 84 to 87), the run ends in [sys.exit] with status 1 and the
    message [openai transcribe: File not found: ] followed by the resolved
    path, not the name as typed. This happens whatever the format and the
    output are: the output path is never looked at, nothing is transcribed,
    printed or written. *)
Theorem input_not_found (fname : str) (lang format output : option str) files :
  fname <> [] ->
  path_exists files (os_path_join cmd_cwd fname) = false ->
  let path := os_path_join cmd_cwd fname in
  let out := run (Some fname) lang format output (initial files) in
  out = (Raise (SystemExit (u "openai transcribe: File not found: " ++ path)),
         stopped files [Call_load_model (u "small"); Call_get_cmd_cwd;
                        Call_exists path]) /\
  exit_status (fst out) = 1%Z.
Proof.
  intros Hf Hin. cbv zeta. rewrite cli_run.
  destruct fname as [|a fname]; [contradiction|]. cbv zeta.
  rewrite Hin. split; reflexivity.
Qed.

(** X3. [os.path.join] drops the working directory in front of an absolute
    name (lines 84 and 91): when the filename is absolute and the output is
    absent or absolute, the run is the same computation in every working
    directory. *)
Theorem absolute_names_ignore_cwd (other_cwd : str) (fname : str)
  (lang format output : option str) files :
  startswith slash fname = true ->
  (forall o, output = Some o -> o <> [] -> startswith slash o = true) ->
  run (Some fname) lang format output (initial files)
  = cli other_cwd whisper_transcribe OutputHandler_write
      (Some fname) lang format output (initial files).
Proof.
  intros Hf Ho. rewrite !cli_run.
  destruct fname as [|a fname]; [discriminate|]. cbv zeta.
  rewrite !(os_path_join_absolute _ _ Hf).
  destruct output as [[|c o']|]; try reflexivity.
  rewrite !(os_path_join_absolute _ (c :: o'))
    by (apply Ho; [reflexivity | discriminate]).
  reflexivity.
Qed.

(** X4. A format that is given takes precedence over the extension of the
    output (line 102), and the destination handed to the output handler is
    the output joined to the working directory (lines 91 and 103): whatever
    the output's name, the handler is built with the given format. *)
Theorem given_format_wins (fname f o : str) (lang : option str) files :
  fname <> [] -> f <> [] -> o <> [] ->
  path_exists files (os_path_join cmd_cwd fname) = true ->
  path_exists files (os_path_join cmd_cwd o) = false ->
  let path := os_path_join cmd_cwd fname in
  let dest := Some (os_path_join cmd_cwd o) in
  run (Some fname) lang (Some f) (Some o) (initial files)
  = OutputHandler_write f dest
      (transcribed files
         [Call_load_model (u "small"); Call_get_cmd_cwd; Call_exists path;
          Call_get_cmd_cwd; Call_exists (os_path_join cmd_cwd o);
          Call_transcribe (quote path) false lang;
          Call_OutputHandler f dest]
         (whisper_transcribe (quote path) false lang)).
Proof.
  intros Hf Hfmt Ho Hin Hout. cbv zeta. rewrite cli_run.
  destruct fname as [|a fname]; [contradiction|].
  destruct f as [|d f']; [contradiction|].
  destruct o as [|c o']; [contradiction|]. cbv zeta.
  rewrite Hin, Hout. reflexivity.
Qed.

Hypothesis handler_keeps_log :
  forall f d s, calls (snd (OutputHandler_write f d s)) = calls s.

(** X5. With an output handler that leaves the log of calls alone, the
    decoder is called exactly when the pre-flight checks pass, and then
    exactly once: on the quoted input path, with [fp16=False], and with the
    language exactly as given (lines 95 to 99). *)
Theorem decoder_called_once (filename lang format output : option str) files :
  filter transcribe_call
    (calls (snd (run filename lang format output (initial files))))
  = match filename with
    | Some fname =>
        if passes_checks cmd_cwd files filename output
        then [Call_transcribe (quote (os_path_join cmd_cwd fname)) false lang]
        else []
    | None => []
    end.
Proof.
  rewrite cli_run. unfold passes_checks.
  destruct filename as [[|a fname]|]; try reflexivity. cbv zeta.
  destruct (path_exists files (os_path_join cmd_cwd (a :: fname)));
    [|reflexivity].
  cbn [negb andb].
  destruct output as [[|c o']|];
    try (destruct (path_exists files (os_path_join cmd_cwd (c :: o')));
         [reflexivity|]);
    destruct format as [[|d f']|];
    rewrite ?handler_keeps_log, ?(proj1 (console_calls _ _ _)); reflexivity.
Qed.

(** X6. The input path is passed through [shlex.quote] before it reaches
    the decoder (line 96). With an output handler that leaves the log
    alone, on a run that passes the checks the decoder is called on the very
    path whose existence was tested exactly when every character of that
    path is safe for the shell; a path with any other character, such as a
    space, reaches the decoder wrapped in apostrophes. *)
Theorem decoder_path_unquoted_iff_safe (fname : str) (lang format output : option str) files :
  passes_checks cmd_cwd files (Some fname) output = true ->
  let path := os_path_join cmd_cwd fname in
  let out := run (Some fname) lang format output (initial files) in
  (In (Call_transcribe path false lang) (calls (snd out))
   <-> forallb shlex_safe path = true) /\
  (forallb shlex_safe path = false ->
   In (Call_transcribe ([apostrophe] ++ escape path ++ [apostrophe]) false lang)
      (calls (snd out))).
Proof.
  intros Hchk. cbv zeta.
  pose proof (decoder_called_once (Some fname) lang format output files) as Hlog.
  rewrite Hchk in Hlog.
  assert (Hne : os_path_join cmd_cwd fname <> []).
  { apply os_path_join_nonempty. intros ->. discriminate Hchk. }
  split; [split|].
  - intros Hin.
    assert (H : In (Call_transcribe (os_path_join cmd_cwd fname) false lang)
                  (filter transcribe_call
                     (calls (snd (run (Some fname) lang format output (initial files)))))).
    { apply filter_In. split; [exact Hin | reflexivity]. }
    rewrite Hlog in H. destruct H as [H | []]. injection H as H.
    now apply quote_unchanged in H.
  - intros Hsafe.
    assert (E : quote (os_path_join cmd_cwd fname) = os_path_join cmd_cwd fname).
    { apply quote_unchanged. now split. }
    rewrite E in Hlog.
    apply (proj1 (filter_In transcribe_call _ _)). rewrite Hlog. now left.
  - intros Hunsafe. rewrite (quote_unsafe _ Hunsafe) in Hlog.
    apply (proj1 (filter_In transcribe_call _ _)). rewrite Hlog. now left.
Qed.

End Further.

(** X7. [shlex.quote], applied to the input path at line 96, is injective:
    two different paths never reach the decoder as the same argument. *)
Theorem quote_injective (a b : str) : a <> b -> quote a <> quote b.
Proof.
  intros Hab E. apply Hab. clear Hab.
  destruct (forallb shlex_safe a) eqn:Ha, (forallb shlex_safe b) eqn:Hb.
  - destruct a as [|x a], b as [|y b]; try reflexivity.
    + unfold quote in E. rewrite Hb in E. rewrite <- E in Hb. discriminate.
    + unfold quote in E. rewrite Ha in E. rewrite E in Ha. discriminate.
    + unfold quote in E. now rewrite Ha, Hb in E.
  - rewrite (quote_unsafe _ Hb) in E. destruct a as [|x a].
    + injection E as E. symmetry in E.
      apply app_eq_unit in E as [[E _] | [_ E]]; [|discriminate].
      destruct b; [discriminate Hb|].
      unfold escape in E. simpl in E. destruct (chr_eqb c apostrophe); discriminate.
    + unfold quote in E. rewrite Ha in E. rewrite E in Ha. discriminate.
  - rewrite (quote_unsafe _ Ha) in E. destruct b as [|y b].
    + injection E as E.
      apply app_eq_unit in E as [[E _] | [_ E]]; [|discriminate].
      destruct a; [discriminate Ha|].
      unfold escape in E. simpl in E. destruct (chr_eqb c apostrophe); discriminate.
    + unfold quote in E. rewrite Hb in E. rewrite <- E in Hb. discriminate.
  - rewrite (quote_unsafe _ Ha), (quote_unsafe _ Hb) in E.
    injection E as E. apply app_inj_tail in E as [E _].
    now apply escape_injective.
Qed.

(** X8. The format derived from an output name (line 102) is whatever
    follows its last [.]: for every stem, also one with dots or slashes,
    and every extension without a dot, [stem.ext] yields [ext]. *)
Theorem extension_of_named_file (stem ext : str) :
  ~ In dot ext -> extension (stem ++ dot :: ext) = ret ext.
Proof.
  intros Hext. rewrite extension_last_piece. f_equal.
  destruct (last_piece_spec (stem ++ dot :: ext)) as [[Hno _] | (p & E & Hlp)].
  - elim Hno. apply in_or_app. right. now left.
  - symmetry. exact (after_last_unique dot stem p ext _ E Hext Hlp).
Qed.

(** ** Further properties of the sentence grouping *)

Lemma ends_sentence_nonempty (t : str) : ends_sentence t = true -> t <> [].
Proof. intros H ->. discriminate H. Qed.

Lemma ends_sentence_join (buffer : list str) (t : str) :
  t <> [] -> ends_sentence (join (u " ") (buffer ++ [t])) = ends_sentence t.
Proof.
  intros Ht. unfold ends_sentence. now rewrite join_snoc_last.
Qed.

Lemma group_complete (texts : list str) : forall buffer,
  group_sentences buffer texts
  = complete_sentences buffer texts
    ++ match remainder buffer texts with
       | [] => []
       | b => [join (u " ") b]
       end.
Proof.
  induction texts as [|t rest IH]; intros buffer; cbn.
  - now destruct buffer.
  - destruct (ends_sentence (strip t)); cbn; now rewrite IH.
Qed.

Lemma group_nonempty (texts : list str) : forall buffer,
  texts <> [] \/ buffer <> [] -> group_sentences buffer texts <> [].
Proof.
  induction texts as [|t rest IH]; intros buffer H; cbn.
  - destruct H as [H | H]; [contradiction|]. now destruct buffer.
  - destruct (ends_sentence (strip t)); [discriminate|].
    apply IH. right. now destruct buffer.
Qed.

Lemma complete_length (texts : list str) : forall buffer,
  List.length (complete_sentences buffer texts) = sentence_ends texts.
Proof.
  unfold sentence_ends.
  induction texts as [|t rest IH]; intros buffer; cbn; [reflexivity|].
  destruct (ends_sentence (strip t)); cbn; now rewrite IH.
Qed.

Lemma complete_end (texts : list str) : forall buffer,
  Forall (fun l => ends_sentence l = true) (complete_sentences buffer texts).
Proof.
  induction texts as [|t rest IH]; intros buffer; cbn; [constructor|].
  destruct (ends_sentence (strip t)) eqn:E; [|apply IH].
  constructor; [|apply IH].
  rewrite ends_sentence_join; [exact E | now apply ends_sentence_nonempty].
Qed.

Lemma unfinished_cons (t : str) (rest : list str) :
  rest <> [] -> unfinished (t :: rest) = unfinished rest.
Proof. destruct rest; [contradiction | reflexivity]. Qed.

Lemma remainder_finished (texts : list str) : forall buffer,
  (texts = [] -> buffer = []) -> unfinished texts = false ->
  remainder buffer texts = [].
Proof.
  induction texts as [|t rest IH]; intros buffer Hb Hu; [now apply Hb|].
  cbn [remainder]. destruct rest as [|t2 rest].
  - unfold unfinished in Hu. cbn in Hu.
    destruct (ends_sentence (strip t)); [reflexivity | discriminate].
  - rewrite unfinished_cons in Hu by discriminate.
    destruct (ends_sentence (strip t)); apply IH; try assumption; discriminate.
Qed.

Lemma remainder_unfinished (texts : list str) : forall buffer,
  unfinished texts = true ->
  exists init t, remainder buffer texts = init ++ [strip t] /\
                 list_last texts = Some t /\ ends_sentence (strip t) = false.
Proof.
  induction texts as [|t rest IH]; intros buffer Hu; [discriminate|].
  cbn [remainder]. destruct rest as [|t2 rest].
  - unfold unfinished in Hu. cbn in Hu.
    destruct (ends_sentence (strip t)) eqn:E; [discriminate|].
    now exists buffer, t.
  - rewrite unfinished_cons in Hu by discriminate.
    rewrite list_last_cons.
    destruct (ends_sentence (strip t)); now apply IH.
Qed.

(** The printed lines, joined again, are the trimmed texts joined. *)
Lemma group_content (texts : list str) : forall buffer,
  join (u " ") (group_sentences buffer texts)
  = join (u " ") (buffer ++ map strip texts).
Proof.
  induction texts as [|t rest IH]; intros buffer.
  - cbn. rewrite app_nil_r. now destruct buffer.
  - cbn [group_sentences map].
    replace (buffer ++ strip t :: map strip rest)
      with ((buffer ++ [strip t]) ++ map strip rest)
      by now rewrite <- app_assoc.
    destruct (ends_sentence (strip t)); [|apply IH].
    destruct rest as [|t2 rest]; [cbn; now rewrite app_nil_r|].
    rewrite join_cons by (apply group_nonempty; left; discriminate).
    rewrite (join_app (u " ") (buffer ++ [strip t]) (map strip (t2 :: rest)));
      [| now destruct buffer | cbn; discriminate].
    rewrite (IH []). reflexivity.
Qed.

Lemma strip_last_nonspace (t : str) : list_last (strip t) = last_nonspace t.
Proof.
  unfold last_nonspace.
  destruct (strip_decompose t) as (p & q & E & Hp & Hq).
  rewrite E at 2. rewrite !filter_app, (filter_spaces p Hp), (filter_spaces q Hq).
  rewrite app_nil_r. cbn [app].
  destruct (strip t) as [|c r] eqn:Es; [reflexivity|].
  destruct (strip_ends t c r Es) as (_ & d & Hl & Hd). rewrite Es in Hl.
  destruct (list_last_Some _ _ Hl) as (init & Ei). rewrite Hl, Ei.
  rewrite filter_app. cbn [filter]. unfold nonspace at 2. rewrite Hd. cbn [negb].
  now rewrite list_last_snoc.
Qed.

Lemma tidy_strip (t : str) : strip t <> [] -> tidy (strip t).
Proof.
  intros H. destruct (strip t) as [|c r] eqn:E; [contradiction|].
  destruct (strip_ends t c r E) as (Hc & d & Hl & Hd). rewrite E in Hl.
  now exists c, r, d.
Qed.

Lemma tidy_fixed (x : str) : tidy x -> x <> [] /\ strip x = x.
Proof.
  intros (c & r & d & E & Hc & Hl & Hd). split.
  - rewrite E. discriminate.
  - exact (strip_fixed x c d r E Hc Hl Hd).
Qed.

Lemma tidy_join (b : list str) :
  b <> [] -> Forall tidy b -> tidy (join (u " ") b).
Proof.
  intros Hb Hall.
  destruct (@exists_last _ b Hb) as (init & t & E).
  assert (Ht : tidy t).
  { rewrite Forall_forall in Hall. apply Hall. rewrite E.
    apply in_or_app. right. now left. }
  destruct Ht as (c & r & d & Et & Hc & Hl & Hd).
  assert (Hlast : list_last (join (u " ") b) = Some d).
  { rewrite E, join_snoc_last; [exact Hl | rewrite Et; discriminate]. }
  destruct b as [|x b]; [contradiction|].
  inversion Hall as [|? ? (c0 & r0 & d0 & Ex & Hc0 & _) _]; subst x.
  destruct b as [|y b].
  - exists c0, r0, d. now repeat split.
  - exists c0, (r0 ++ u " " ++ join (u " ") (y :: b)), d. now repeat split.
Qed.

Lemma group_tidy (texts : list str) : forall buffer,
  Forall tidy buffer -> Forall (fun t => strip t <> []) texts ->
  Forall tidy (group_sentences buffer texts).
Proof.
  induction texts as [|t rest IH]; intros buffer Hb Ht; cbn [group_sentences].
  - destruct buffer as [|x buffer]; constructor; [|constructor].
    apply tidy_join; [discriminate | exact Hb].
  - inversion Ht as [|? ? Hne Hrest]; subst.
    assert (Hb' : Forall tidy (buffer ++ [strip t])).
    { apply Forall_app. split; [exact Hb|].
      constructor; [now apply tidy_strip | constructor]. }
    destruct (ends_sentence (strip t)).
    + constructor.
      * apply tidy_join; [now destruct buffer | exact Hb'].
      * apply IH; [constructor | exact Hrest].
    + apply IH; assumption.
Qed.

(** The loop on segments whose first empty trimmed text comes after
    [pre]. *)
Lemma scan_stops (pre : list Segment) (sg : Segment) (post : list Segment) :
  forall buffer,
  Forall (fun s => strip (text s) <> []) pre -> strip (text sg) = [] ->
  scan buffer (pre ++ sg :: post)
  = (complete_sentences buffer (map text pre),
     remainder buffer (map text pre) ++ [[]], false).
Proof.
  induction pre as [|s pre IH]; intros buffer Hpre Hsg.
  - cbn [app scan map complete_sentences remainder]. rewrite Hsg. reflexivity.
  - inversion Hpre as [|? ? Hs Hrest]; subst.
    cbn [app scan map complete_sentences remainder].
    destruct (getitem_last (strip (text s))) as [c|] eqn:Hc;
      [|apply getitem_last_None in Hc; contradiction].
    rewrite (last_char_ends _ _ Hc).
    destruct (ends_sentence (strip (text s))).
    + now rewrite (IH [] Hrest Hsg).
    + now apply IH.
Qed.

Lemma forall_texts (segs : list Segment) :
  Forall (fun sg => strip (text sg) <> []) segs ->
  Forall (fun t => strip t <> []) (map text segs).
Proof.
  intros H. apply Forall_map. exact H.
Qed.

(** X9. The test of the loop body at line 113, [text.strip()[-1]], looks at
    the last character of the raw text that is not white space: when there
    is none the body raises [IndexError], having appended the empty text to
    the buffer; when that character is a sentence-ending mark the body
    prints the buffer joined by single spaces and empties it; otherwise the
    body only appends the trimmed text. *)
Theorem loop_body_tests_last_nonspace (sg : Segment) (s : Store) :
  console_body sg s
  = match last_nonspace (text sg) with
    | None =>
        (Raise IndexError, with_console s (stdout s) (text_buffer s ++ [[]]))
    | Some c =>
        if existsb (chr_eqb c) terminator_chars
        then (Return tt,
              with_console s
                (stdout s ++ [join (u " ") (text_buffer s ++ [strip (text sg)])]) [])
        else (Return tt,
              with_console s (stdout s) (text_buffer s ++ [strip (text sg)]))
    end.
Proof.
  rewrite <- strip_last_nonspace. unfold console_body.
  rewrite getitem_last_list_last.
  destruct (list_last (strip (text sg))) as [c|] eqn:Hl; cbn [option_map].
  - unfold bind. cbn [text_buffer_append modify ret].
    rewrite (last_char_ends [c] [c] eq_refl). unfold ends_sentence. cbn [list_last].
    destruct (existsb (chr_eqb c) terminator_chars); reflexivity.
  - destruct (strip (text sg)) as [|x r] eqn:E; [reflexivity|].
    destruct (strip_ends _ _ _ E) as (_ & d & Hd & _). congruence.
Qed.

Section Grouping.

Variable cmd_cwd : str.
Variable whisper_transcribe : str -> bool -> option str -> TranscriptionResult.
Variable OutputHandler_write : str -> option str -> M unit.

#[local] Abbreviation run := (cli cmd_cwd whisper_transcribe OutputHandler_write).

(** A run that passes the checks with neither format nor output is the
    console branch on the decoder's result. *)
Lemma console_branch (fname : str) (lang format output : option str) files :
  fname <> [] ->
  path_exists files (os_path_join cmd_cwd fname) = true ->
  truthy format = false -> truthy output = false ->
  let path := os_path_join cmd_cwd fname in
  run (Some fname) lang format output (initial files)
  = console
      (transcribed files
         [Call_load_model (u "small"); Call_get_cmd_cwd; Call_exists path;
          Call_transcribe (quote path) false lang]
         (whisper_transcribe (quote path) false lang)).
Proof.
  intros Hf Hin Hfmt Hout. cbv zeta. rewrite cli_run.
  destruct fname as [|a fname]; [contradiction|]. cbv zeta.
  rewrite Hin. cbn [negb].
  destruct output as [[|c o']|]; try discriminate;
    destruct format as [[|d f']|]; try discriminate; reflexivity.
Qed.

Lemma console_lines (fname : str) (lang format output : option str) files :
  fname <> [] ->
  path_exists files (os_path_join cmd_cwd fname) = true ->
  truthy format = false -> truthy output = false ->
  let r := whisper_transcribe (quote (os_path_join cmd_cwd fname)) false lang in
  Forall (fun sg => strip (text sg) <> []) (segments r) ->
  stdout (snd (run (Some fname) lang format output (initial files)))
  = group_sentences [] (map text (segments r)).
Proof.
  intros Hf Hin Hfmt Hout r Hseg.
  rewrite (console_branch fname lang format output files Hf Hin Hfmt Hout).
  fold r. rewrite console_run.
  pose proof (scan_groups (segments r) [] Hseg) as H.
  destruct (scan [] (segments r)) as [[ls b] ok].
  destruct H as [-> H]. exact H.
Qed.

(** X10. On a console run in which every trimmed text is non-empty, no
    text is lost, added or reordered by the grouping (lines 110 to 122):
    the printed lines joined by single spaces are the trimmed texts of the
    segments joined by single spaces. *)
Theorem lines_keep_every_text (fname : str) (lang format output : option str) files :
  fname <> [] ->
  path_exists files (os_path_join cmd_cwd fname) = true ->
  truthy format = false -> truthy output = false ->
  let r := whisper_transcribe (quote (os_path_join cmd_cwd fname)) false lang in
  Forall (fun sg => strip (text sg) <> []) (segments r) ->
  join (u " ") (stdout (snd (run (Some fname) lang format output (initial files))))
  = join (u " ") (map (fun sg => strip (text sg)) (segments r)).
Proof.
  intros Hf Hin Hfmt Hout r Hseg.
  rewrite (console_lines fname lang format output files Hf Hin Hfmt Hout Hseg).
  rewrite group_content. cbn [app]. now rewrite map_map.
Qed.

(** X11. On such a run the console shows one line for each segment that
    ends a sentence, each of them ending with a sentence-ending mark, and
    after them one more line, not ending with a mark, exactly when the last
    segment leaves a sentence unfinished (lines 113 to 122). *)
Theorem one_line_per_sentence (fname : str) (lang format output : option str) files :
  fname <> [] ->
  path_exists files (os_path_join cmd_cwd fname) = true ->
  truthy format = false -> truthy output = false ->
  let r := whisper_transcribe (quote (os_path_join cmd_cwd fname)) false lang in
  let texts := map text (segments r) in
  Forall (fun sg => strip (text sg) <> []) (segments r) ->
  exists sentences rest,
    stdout (snd (run (Some fname) lang format output (initial files)))
    = sentences ++ rest /\
    List.length sentences = sentence_ends texts /\
    Forall (fun l => ends_sentence l = true) sentences /\
    (unfinished texts = false -> rest = []) /\
    (unfinished texts = true -> exists l, rest = [l] /\ ends_sentence l = false).
Proof.
  intros Hf Hin Hfmt Hout r texts Hseg.
  rewrite (console_lines fname lang format output files Hf Hin Hfmt Hout Hseg).
  fold r. fold texts. rewrite group_complete.
  exists (complete_sentences [] texts). eexists. split; [reflexivity|].
  split; [apply complete_length|]. split; [apply complete_end|]. split.
  - intros Hu. rewrite remainder_finished; [reflexivity | reflexivity | exact Hu].
  - intros Hu.
    destruct (remainder_unfinished texts [] Hu) as (init & t & E & Hl & He).
    rewrite E. exists (join (u " ") (init ++ [strip t])). split.
    + now destruct init.
    + rewrite ends_sentence_join; [exact He|].
      assert (Hin' : In t texts).
      { destruct (list_last_Some _ _ Hl) as (i & ->).
        apply in_or_app. right. now left. }
      pose proof (forall_texts _ Hseg) as Hall. rewrite Forall_forall in Hall.
      now apply Hall.
Qed.

(** X12. On such a run every printed line is non-empty and neither starts
    nor ends with white space: trimming a line again gives the same line. *)
Theorem lines_are_trimmed (fname : str) (lang format output : option str) files :
  fname <> [] ->
  path_exists files (os_path_join cmd_cwd fname) = true ->
  truthy format = false -> truthy output = false ->
  let r := whisper_transcribe (quote (os_path_join cmd_cwd fname)) false lang in
  Forall (fun sg => strip (text sg) <> []) (segments r) ->
  Forall (fun l => l <> [] /\ strip l = l)
    (stdout (snd (run (Some fname) lang format output (initial files)))).
Proof.
  intros Hf Hin Hfmt Hout r Hseg.
  rewrite (console_lines fname lang format output files Hf Hin Hfmt Hout Hseg).
  fold r.
  assert (H : Forall tidy (group_sentences [] (map text (segments r)))).
  { apply group_tidy; [constructor | now apply forall_texts]. }
  rewrite Forall_forall in *. intros l Hl. apply tidy_fixed. now apply H.
Qed.

(** X13. When the first segment with an empty trimmed text comes after the
    segments [pre], the console run ends in [IndexError] having printed the
    sentences completed within [pre] and nothing else: the texts buffered
    since the last sentence end are still in the buffer and are never
    printed, and the segments after the empty one are not looked at. *)
Theorem output_before_failure (fname : str) (lang format output : option str) files
  (pre : list Segment) (sg : Segment) (post : list Segment) :
  fname <> [] ->
  path_exists files (os_path_join cmd_cwd fname) = true ->
  truthy format = false -> truthy output = false ->
  let r := whisper_transcribe (quote (os_path_join cmd_cwd fname)) false lang in
  segments r = pre ++ sg :: post ->
  Forall (fun s => strip (text s) <> []) pre ->
  strip (text sg) = [] ->
  let out := run (Some fname) lang format output (initial files) in
  fst out = Raise IndexError /\
  stdout (snd out) = complete_sentences [] (map text pre) /\
  text_buffer (snd out) = remainder [] (map text pre) ++ [[]].
Proof.
  intros Hf Hin Hfmt Hout r Hsegs Hpre Hsg. cbv zeta.
  rewrite (console_branch fname lang format output files Hf Hin Hfmt Hout).
  fold r. rewrite console_run, Hsegs, (scan_stops pre sg post [] Hpre Hsg).
  repeat split.
Qed.

End Grouping.

(** ** Concrete runs for the further properties *)

Lemma input_not_found_witness :
  cli Demo.cwd (Demo.decoder [u "Hello."]) no_handler
    (Some (u "missing.wav")) None None (Some (u "old.txt")) (initial Demo.files)
  = (Raise (SystemExit (u "openai transcribe: File not found: /home/u/missing.wav")),
     stopped Demo.files
       [Call_load_model (u "small"); Call_get_cmd_cwd;
        Call_exists (u "/home/u/missing.wav")]).
Proof.
  exact (proj1 (input_not_found Demo.cwd (Demo.decoder [u "Hello."]) no_handler
                  (u "missing.wav") None None (Some (u "old.txt")) Demo.files
                  ltac:(discriminate) eq_refl)).
Defined.

Lemma absolute_names_ignore_cwd_witness :
  cli Demo.cwd (Demo.decoder [u "Hello."]) no_handler
    (Some (u "/home/u/talk.wav")) None None (Some (u "/home/u/out.srt"))
    (initial Demo.files)
  = cli (u "/tmp") (Demo.decoder [u "Hello."]) no_handler
      (Some (u "/home/u/talk.wav")) None None (Some (u "/home/u/out.srt"))
      (initial Demo.files).
Proof.
  apply (absolute_names_ignore_cwd Demo.cwd (Demo.decoder [u "Hello."]) no_handler
           (u "/tmp") (u "/home/u/talk.wav") None None
           (Some (u "/home/u/out.srt")) Demo.files eq_refl).
  intros o [= <-] _. reflexivity.
Defined.

Lemma given_format_wins_witness :
  cli Demo.cwd (Demo.decoder [u "Hello."]) no_handler
    Demo.talk None (Some (u "srt")) (Some (u "out.vtt")) (initial Demo.files)
  = no_handler (u "srt") (Some (u "/home/u/out.vtt"))
      (transcribed Demo.files
         [Call_load_model (u "small"); Call_get_cmd_cwd;
          Call_exists (u "/home/u/talk.wav"); Call_get_cmd_cwd;
          Call_exists (u "/home/u/out.vtt");
          Call_transcribe (u "/home/u/talk.wav") false None;
          Call_OutputHandler (u "srt") (Some (u "/home/u/out.vtt"))]
         (tr [u "Hello."])).
Proof.
  exact (given_format_wins Demo.cwd (Demo.decoder [u "Hello."]) no_handler
           (u "talk.wav") (u "srt") (u "out.vtt") None Demo.files
           ltac:(discriminate) ltac:(discriminate) ltac:(discriminate)
           eq_refl eq_refl).
Defined.

Lemma decoder_called_once_witness :
  filter transcribe_call
    (calls (snd (cli Demo.cwd (Demo.decoder [u "Hello."]) no_handler
                   Demo.talk (Some []) (Some (u "srt")) None (initial Demo.files))))
  = [Call_transcribe (u "/home/u/talk.wav") false (Some [])].
Proof.
  exact (decoder_called_once Demo.cwd (Demo.decoder [u "Hello."]) no_handler
           (fun _ _ _ => eq_refl) Demo.talk (Some []) (Some (u "srt")) None
           Demo.files).
Defined.

Lemma decoder_path_unquoted_iff_safe_witness :
  In (Call_transcribe (u "'/home/u/my talk.wav'") false None)
    (calls (snd (cli Demo.cwd (Demo.decoder [u "Hello."]) no_handler
                   (Some (u "my talk.wav")) None None None (initial spaced_files))))
  /\ ~ In (Call_transcribe (u "/home/u/my talk.wav") false None)
       (calls (snd (cli Demo.cwd (Demo.decoder [u "Hello."]) no_handler
                      (Some (u "my talk.wav")) None None None (initial spaced_files)))).
Proof.
  destruct (decoder_path_unquoted_iff_safe Demo.cwd (Demo.decoder [u "Hello."])
              no_handler (fun _ _ _ => eq_refl) (u "my talk.wav") None None None
              spaced_files eq_refl)
    as [[Hsafe _] Hquoted].
  split.
  - apply Hquoted. reflexivity.
  - intros H. apply Hsafe in H. discriminate H.
Defined.

Lemma quote_injective_witness : quote (u "a b") <> quote (u "ab").
Proof.
  apply quote_injective. discriminate.
Defined.

Lemma extension_of_named_file_witness :
  extension (u "my.dir/out.vtt") = ret (u "vtt").
Proof.
  apply (extension_of_named_file (u "my.dir/out") (u "vtt")).
  intros H. apply In_existsb in H. discriminate H.
Defined.

Lemma lines_keep_every_text_witness :
  join (u " ")
    (stdout (snd (cli Demo.cwd
                    (Demo.decoder [u " Hello"; u "world. "; u "Next sentence."])
                    no_handler Demo.talk None None None (initial Demo.files))))
  = u "Hello world. Next sentence.".
Proof.
  assert (Hseg : Forall (fun sg => strip (text sg) <> [])
                   (segments (tr [u " Hello"; u "world. "; u "Next sentence."]))).
  { repeat constructor; discriminate. }
  etransitivity.
  - exact (lines_keep_every_text Demo.cwd
             (Demo.decoder [u " Hello"; u "world. "; u "Next sentence."])
             no_handler (u "talk.wav") None None None Demo.files
             ltac:(discriminate) eq_refl eq_refl eq_refl Hseg).
  - reflexivity.
Defined.

Lemma one_line_per_sentence_witness :
  exists sentences rest,
    stdout (snd (cli Demo.cwd
                   (Demo.decoder [u "Hello"; u "world."; u "And then"])
                   no_handler Demo.talk None None None (initial Demo.files)))
    = sentences ++ rest /\
    List.length sentences = 1 /\ List.length rest = 1.
Proof.
  assert (Hseg : Forall (fun sg => strip (text sg) <> [])
                   (segments (tr [u "Hello"; u "world."; u "And then"]))).
  { repeat constructor; discriminate. }
  destruct (one_line_per_sentence Demo.cwd
              (Demo.decoder [u "Hello"; u "world."; u "And then"])
              no_handler (u "talk.wav") None None None Demo.files
              ltac:(discriminate) eq_refl eq_refl eq_refl Hseg)
    as (sentences & rest & E & Hlen & _ & _ & Hrest).
  exists sentences, rest. split; [exact E|]. split; [exact Hlen|].
  destruct (Hrest eq_refl) as (l & -> & _). reflexivity.
Defined.

Lemma lines_are_trimmed_witness :
  Forall (fun l => l <> [] /\ strip l = l)
    (stdout (snd (cli Demo.cwd
                    (Demo.decoder [u " Hello"; u "world. "; u "Next sentence."])
                    no_handler Demo.talk None None None (initial Demo.files)))).
Proof.
  assert (Hseg : Forall (fun sg => strip (text sg) <> [])
                   (segments (tr [u " Hello"; u "world. "; u "Next sentence."]))).
  { repeat constructor; discriminate. }
  exact (lines_are_trimmed Demo.cwd
           (Demo.decoder [u " Hello"; u "world. "; u "Next sentence."])
           no_handler (u "talk.wav") None None None Demo.files
           ltac:(discriminate) eq_refl eq_refl eq_refl Hseg).
Defined.

Lemma output_before_failure_witness :
  let out := cli Demo.cwd (Demo.decoder [u "Hello."; u "and"; u "  "; u "more."])
               no_handler Demo.talk None None None (initial Demo.files) in
  fst out = Raise IndexError /\
  stdout (snd out) = [u "Hello."] /\
  text_buffer (snd out) = [u "and"; []].
Proof.
  assert (Hpre : Forall (fun s => strip (text s) <> []) [seg (u "Hello."); seg (u "and")]).
  { repeat constructor; discriminate. }
  exact (output_before_failure Demo.cwd
           (Demo.decoder [u "Hello."; u "and"; u "  "; u "more."])
           no_handler (u "talk.wav") None None None Demo.files
           [seg (u "Hello."); seg (u "and")] (seg (u "  ")) [seg (u "more.")]
           ltac:(discriminate) eq_refl eq_refl eq_refl eq_refl Hpre eq_refl).
Defined.

Section Loading.

Variable cmd_cwd : str.
Variable whisper_transcribe : str -> bool -> option str -> TranscriptionResult.
Variable OutputHandler_write : str -> option str -> M unit.

Hypothesis handler_keeps_log :
  forall f d s, calls (snd (OutputHandler_write f d s)) = calls s.

(** X14. The model is loaded before any argument is looked at (line 75
    comes before line 81): with an output handler that leaves the log of
    calls alone, every run, also one that fails a pre-flight check, begins
    by loading the model [small] and loads a model exactly once. *)
Theorem model_loaded_first (filename lang format output : option str) files :
  let log := calls (snd (cli cmd_cwd whisper_transcribe OutputHandler_write
                           filename lang format output (initial files))) in
  hd_error log = Some (Call_load_model (u "small")) /\
  filter load_call log = [Call_load_model (u "small")].
Proof.
  cbv zeta. rewrite cli_run.
  destruct filename as [[|a fname]|]; try (split; reflexivity). cbv zeta.
  destruct (path_exists files (os_path_join cmd_cwd (a :: fname)));
    [|split; reflexivity].
  cbn [negb].
  destruct output as [[|c o']|];
    try (destruct (path_exists files (os_path_join cmd_cwd (c :: o')));
         [split; reflexivity|]);
    destruct format as [[|d f']|];
    rewrite ?handler_keeps_log, ?(proj1 (console_calls _ _ _));
    split; reflexivity.
Qed.

End Loading.

Lemma model_loaded_first_witness :
  calls (snd (cli Demo.cwd (Demo.decoder [u "Hello."]) no_handler
                None None (Some (u "mp3")) None (initial Demo.files)))
  = [Call_load_model (u "small")].
Proof.
  destruct (model_loaded_first Demo.cwd (Demo.decoder [u "Hello."]) no_handler
              (fun _ _ _ => eq_refl) None None (Some (u "mp3")) None Demo.files)
    as [_ H].
  exact H.
Defined.

(** C5, as first stated, fails where the output name itself has a line
    break: line 93 puts [{output}] into the message as it is. With an
    existing output named [a], line break, [b.txt], the run meets the
    condition of the claim and exits with a diagnostic of two lines. *)
Lemma C5_single_line_counterexample :
  let out := cli Demo.cwd (Demo.decoder [u "Hello."]) no_handler
               Demo.talk None None (Some broken_name) (initial broken_name_files) in
  broken_name <> [] /\
  path_exists broken_name_files (os_path_join Demo.cwd broken_name) = true /\
  fst out
  = Raise (SystemExit (u "openai transcribe: Output file already exists: a"
                       ++ [newline] ++ u "b.txt")) /\
  ~ (forall msg, fst out = Raise (SystemExit msg) -> ~ In newline msg).
Proof.
  cbv zeta. split; [discriminate|]. split; [reflexivity|]. split; [reflexivity|].
  intros H.
  apply (H (u "openai transcribe: Output file already exists: a"
            ++ [newline] ++ u "b.txt")); [reflexivity|].
  apply in_or_app. right. now left.
Defined.
